(** * Array-backed stacks with undo, bracket balancing and infix-to-postfix

    A shallow embedding of
      - [src/data structure/stack.ts]            (class [Stack<T>], bounded by [MAX_SIZE]),
      - [src/data structure/BalancedStack.ts]    (class [BalancedStack<T>], [isBalanced]),
      - [src/algorithms/InfixToPostfixAlgorithm.ts] (class [InfixToPostfixStack]).

    The three classes declare the same four fields; every method is a
    state transformer on that record which also yields what it wrote
    with [console.error]. *)

From Stdlib Require Import ZArith String Ascii List Lia.
From stdpp Require Import base list.
Import ListNotations.

Local Open Scope string_scope.
Local Open Scope list_scope.

(** ** Effects: object state and the error console *)

(** What a method call leaves behind: the returned value, the object
    after the call and the lines written with [console.error]. *)
Record Res (S A : Type) : Type := Done {
  ret_val : A;
  post : S;
  console : list string
}.
Arguments Done {S A} _ _ _.
Arguments ret_val {S A} _.
Arguments post {S A} _.
Arguments console {S A} _.

Definition Eff (S A : Type) : Type := S -> Res S A.

Definition ret {S A : Type} (a : A) : Eff S A := fun s => Done a s [].

Definition bind {S A B : Type} (m : Eff S A) (k : A -> Eff S B) : Eff S B :=
  fun s =>
    let r := m s in
    let r' := k (ret_val r) (post r) in
    Done (ret_val r') (post r') (console r ++ console r').

Notation "'let*' x ':=' m 'in' k" := (bind m (fun x => k))
  (at level 10, x name, m at level 100, k at level 200).

(** ** JavaScript arrays

    [T] is the type of the values a stack is declared for ([number],
    [string]); a cell holds such a value or [undefined] ([None]), and a
    hole reads as [undefined] as well.  Only the indexed cells are kept:
    a negative index names a plain property, and no method reads or
    writes one on an object that started as a new stack. *)
Module JsArray.
Section JsArray.
Context {T : Type}.

(** [a[i]]: [undefined] outside the array. *)
Definition get (a : list (option T)) (i : Z) : option T :=
  if (i <? 0)%Z then None else default None (a !! Z.to_nat i).

(** [a[i] = v]: overwrites in range, grows the array (leaving holes)
    past its end; a negative [i] names a plain property and leaves the
    indexed cells as they are. *)
Definition set (a : list (option T)) (i : Z) (v : option T) : list (option T) :=
  if (i <? 0)%Z then a
  else if (i <? Z.of_nat (List.length a))%Z then <[Z.to_nat i := v]> a
  else a ++ replicate (Z.to_nat i - List.length a) None ++ [v].

(** [a.push(v)] *)
Definition push (a : list (option T)) (v : option T) : list (option T) :=
  a ++ [v].

(** [a.pop()]: the last cell and the shortened array; [undefined] and
    no change on an empty array. *)
Definition pop (a : list (option T)) : option T * list (option T) :=
  match reverse a with
  | [] => (None, [])
  | x :: r => (x, reverse r)
  end.
End JsArray.
End JsArray.

(** ** The object layout shared by the three stack classes *)

Record StackObj (T : Type) : Type := mkStack {
  elements : list (option T);
  topLevel : Z;
  length : Z;
  _poppedHistory : list (option T)
}.
Arguments mkStack {T} _ _ _ _.
Arguments elements {T} _.
Arguments topLevel {T} _.
Arguments length {T} _.
Arguments _poppedHistory {T} _.

(** [holds s stk]: the live cells [elements[0..topLevel]] of [s] are
    exactly the values [stk], listed from the top down. *)
Definition holds {T : Type} (s : StackObj T) (stk : list T) : Prop :=
  topLevel s = (Z.of_nat (List.length stk) - 1)%Z /\
  take (List.length stk) (elements s) = Some <$> reverse stk.

(** ** [stack.ts]: the bounded generic stack *)

Definition MAX_SIZE : Z := 9.

Module Stack.
Section Stack.
Context {T : Type}.

Definition new : StackObj T := mkStack [] (-1) 0 [].

Definition push (value : T) : Eff (StackObj T) unit := fun this =>
  if (topLevel this >=? MAX_SIZE - 1)%Z then
    Done tt this ["stack overflow"]
  else
    let top := (topLevel this + 1)%Z in
    Done tt
      (mkStack (JsArray.set (elements this) top (Some value)) top
               (length this + 1) (_poppedHistory this))
      [].

Definition pop : Eff (StackObj T) (option T) := fun this =>
  if (topLevel this <? 0)%Z then
    Done None this ["stack underflow"]
  else
    let value := JsArray.get (elements this) (topLevel this) in
    Done value
      (mkStack (elements this) (topLevel this - 1) (length this - 1)
               (JsArray.push (_poppedHistory this) value))
      [].

Definition peek : Eff (StackObj T) (option T) := fun this =>
  if (topLevel this <? 0)%Z then
    Done None this ["stack underflow"]
  else
    Done (JsArray.get (elements this) (topLevel this)) this [].

Definition undo : Eff (StackObj T) (option T) := fun this =>
  let (lastPopped, history) := JsArray.pop (_poppedHistory this) in
  let this := mkStack (elements this) (topLevel this) (length this) history in
  match lastPopped with
  | Some v => (let* _ := push v in ret (Some v)) this
  | None => Done None this []
  end.

(** Callers: a run of pushes, of pops, of undos. *)
Fixpoint pushes (values : list T) : Eff (StackObj T) unit :=
  match values with
  | [] => ret tt
  | v :: rest => let* _ := push v in pushes rest
  end.

Fixpoint pops (n : nat) : Eff (StackObj T) (list (option T)) :=
  match n with
  | O => ret []
  | S n' => let* v := pop in let* vs := pops n' in ret (v :: vs)
  end.

Fixpoint undos (n : nat) : Eff (StackObj T) (list (option T)) :=
  match n with
  | O => ret []
  | S n' => let* v := undo in let* vs := undos n' in ret (v :: vs)
  end.

(** Any caller: a sequence of method calls on one stack. *)
Inductive call : Type :=
| Push (value : T)
| Pop
| Undo.

Definition perform (c : call) (this : StackObj T) : StackObj T :=
  match c with
  | Push value => post (push value this)
  | Pop => post (pop this)
  | Undo => post (undo this)
  end.

Definition performAll (cs : list call) (this : StackObj T) : StackObj T :=
  fold_left (fun this c => perform c this) cs this.

(** The data model of the stack: the element sequence [stk] (top
    first), the count, the undo-history [hist] (most recent last) and
    the capacity bound. *)
Definition Repr (s : StackObj T) (stk hist : list T) : Prop :=
  holds s stk /\
  length s = Z.of_nat (List.length stk) /\
  _poppedHistory s = Some <$> hist /\
  (Z.of_nat (List.length stk) <= MAX_SIZE)%Z.
End Stack.
End Stack.

(** ** Strings as the programs see them *)

(** [for (const char of expression)]: the characters of a string, each
    a one-character string.  A character is one [ascii]. *)
Fixpoint chars (expression : string) : list string :=
  match expression with
  | EmptyString => []
  | String c rest => String c EmptyString :: chars rest
  end.

(** [a === b] on two strings. *)
Notation "a === b" := (String.eqb a b) (at level 70, no associativity).

(** [v === lit] and [v !== lit] where [v] may be [undefined]. *)
Definition strict_eq (v : option string) (lit : string) : bool :=
  match v with
  | Some s => s === lit
  | None => false
  end.

Definition strict_ne (v : option string) (lit : string) : bool :=
  negb (strict_eq v lit).

(** [out += v]: [undefined] is appended as the text "undefined". *)
Definition to_text (v : option string) : string :=
  match v with
  | Some s => s
  | None => "undefined"
  end.

(** [v || '']: [undefined] and the empty string are falsy. *)
Definition or_empty (v : option string) : string :=
  match v with
  | Some s => if s === "" then "" else s
  | None => ""
  end.

(** ** [BalancedStack.ts] *)

Module BalancedStack.
Section Class.
Context {T : Type}.

Definition new : StackObj T := mkStack [] (-1) 0 [].

Definition push (value : T) : Eff (StackObj T) unit := fun this =>
  let top := (topLevel this + 1)%Z in
  Done tt
    (mkStack (JsArray.set (elements this) top (Some value)) top
             (length this + 1) (_poppedHistory this))
    [].

Definition pop : Eff (StackObj T) (option T) := fun this =>
  if (topLevel this <? 0)%Z then
    Done None this ["stack underflow"]
  else
    let value := JsArray.get (elements this) (topLevel this) in
    Done value
      (mkStack (elements this) (topLevel this - 1) (length this - 1)
               (JsArray.push (_poppedHistory this) value))
      [].

Definition peek : Eff (StackObj T) (option T) := fun this =>
  if (topLevel this <? 0)%Z then
    Done None this ["stack underflow"]
  else
    Done (JsArray.get (elements this) (topLevel this)) this [].

Definition undo : Eff (StackObj T) (option T) := fun this =>
  let (lastPopped, history) := JsArray.pop (_poppedHistory this) in
  let this := mkStack (elements this) (topLevel this) (length this) history in
  match lastPopped with
  | Some v => (let* _ := push v in ret (Some v)) this
  | None => Done None this []
  end.

Definition isEmpty : Eff (StackObj T) bool := fun this =>
  Done (topLevel this <? 0)%Z this [].
End Class.

(** The module-level instance every call of [isBalanced] works on. *)
Definition balancedStack : StackObj string := new.

(** The [for ... of] loop of [isBalanced] with its early returns,
    followed by the final [return balancedStack.isEmpty()]. *)
Fixpoint scan (cs : list string) : Eff (StackObj string) bool :=
  match cs with
  | [] => isEmpty
  | char :: rest =>
    if (char === "(") || (char === "{") || (char === "[") then
      let* _ := push char in scan rest
    else if (char === ")") || (char === "}") || (char === "]") then
      let* empty := isEmpty in
      if empty then ret false
      else
        let* top := pop in
        if ((char === ")") && strict_ne top "(") ||
           ((char === "}") && strict_ne top "{") ||
           ((char === "]") && strict_ne top "[")
        then ret false
        else scan rest
    else scan rest
  end.

Definition isBalanced (expression : string) : Eff (StackObj string) bool :=
  scan (chars expression).

(** Successive calls [isBalanced(e)], for the [e] of [inputs] in that
    order, as the demonstration at the end of the file makes them. *)
Fixpoint calls (inputs : list string) : Eff (StackObj string) (list bool) :=
  match inputs with
  | [] => ret []
  | e :: rest =>
    let* b := isBalanced e in
    let* bs := calls rest in
    ret (b :: bs)
  end.
End BalancedStack.

(** ** Loops that may run forever

    [None] stands for a loop that used up its [fuel] of iterations. *)

Definition Part (S A : Type) : Type := S -> option (Res S A).

Definition retP {S A : Type} (a : A) : Part S A := fun s => Some (Done a s []).

Definition bindP {S A B : Type} (m : Part S A) (k : A -> Part S B) : Part S B :=
  fun s =>
    match m s with
    | None => None
    | Some r =>
      match k (ret_val r) (post r) with
      | None => None
      | Some r' => Some (Done (ret_val r') (post r') (console r ++ console r'))
      end
    end.

Definition lift {S A : Type} (m : Eff S A) : Part S A := fun s => Some (m s).

Notation "'let?' x ':=' m 'in' k" := (bindP m (fun x => k))
  (at level 10, x name, m at level 100, k at level 200).

(** ** [InfixToPostfixAlgorithm.ts] *)

Module InfixToPostfixStack.

Definition new : StackObj string := mkStack [] (-1) 0 [].

Definition push (value : string) : Eff (StackObj string) unit := fun this =>
  let top := (topLevel this + 1)%Z in
  Done tt
    (mkStack (JsArray.set (elements this) top (Some value)) top
             (length this + 1) (_poppedHistory this))
    [].

Definition pop : Eff (StackObj string) (option string) := fun this =>
  if (topLevel this <? 0)%Z then
    Done None this ["stack underflow"]
  else
    let value := JsArray.get (elements this) (topLevel this) in
    Done value
      (mkStack (elements this) (topLevel this - 1) (length this - 1)
               (JsArray.push (_poppedHistory this) value))
      [].

Definition peek : Eff (StackObj string) (option string) := fun this =>
  if (topLevel this <? 0)%Z then
    Done None this ["stack underflow"]
  else
    Done (JsArray.get (elements this) (topLevel this)) this [].

Definition undo : Eff (StackObj string) (option string) := fun this =>
  let (lastPopped, history) := JsArray.pop (_poppedHistory this) in
  let this := mkStack (elements this) (topLevel this) (length this) history in
  match lastPopped with
  | Some v => (let* _ := push v in ret (Some v)) this
  | None => Done None this []
  end.

Definition isEmpty : Eff (StackObj string) bool := fun this =>
  Done (topLevel this <? 0)%Z this [].

Definition isOperator (char : string) : bool :=
  (char === "+") || (char === "-") || (char === "*") || (char === "/").

Definition precedence (char : string) : Z :=
  if (char === "+") || (char === "-") then 1%Z
  else if (char === "*") || (char === "/") then 2%Z
  else 0%Z.

(** [this.peek() !== '(' && this.peek() !== '{' && this.peek() !== '[']:
    each conjunct that is evaluated calls [peek] again. *)
Definition noOpenerOnTop : Eff (StackObj string) bool :=
  let* p1 := peek in
  if strict_ne p1 "(" then
    let* p2 := peek in
    if strict_ne p2 "{" then
      let* p3 := peek in ret (strict_ne p3 "[")
    else ret false
  else ret false.

(** [while (noOpenerOnTop) postfixExpression += this.pop()] *)
Fixpoint whileNoOpener (fuel : nat) (postfixExpression : string)
  : Part (StackObj string) string :=
  match fuel with
  | O => fun _ => None
  | S fuel' =>
    let? go := lift noOpenerOnTop in
    if go then
      let? v := lift pop in
      whileNoOpener fuel' (String.append postfixExpression (to_text v))
    else retP postfixExpression
  end.

(** [!this.isEmpty() && this.precedence(this.peek() || '') >= this.precedence(char)] *)
Definition notLowerOnTop (char : string) : Eff (StackObj string) bool :=
  let* empty := isEmpty in
  if negb empty then
    let* p := peek in
    ret (precedence (or_empty p) >=? precedence char)%Z
  else ret false.

(** [while (notLowerOnTop char) postfixExpression += this.pop()] *)
Fixpoint whileNotLower (fuel : nat) (char : string) (postfixExpression : string)
  : Part (StackObj string) string :=
  match fuel with
  | O => fun _ => None
  | S fuel' =>
    let? go := lift (notLowerOnTop char) in
    if go then
      let? v := lift pop in
      whileNotLower fuel' char (String.append postfixExpression (to_text v))
    else retP postfixExpression
  end.

(** [while (!this.isEmpty()) postfixExpression += this.pop()] *)
Fixpoint whileNotEmpty (fuel : nat) (postfixExpression : string)
  : Part (StackObj string) string :=
  match fuel with
  | O => fun _ => None
  | S fuel' =>
    let? empty := lift isEmpty in
    if negb empty then
      let? v := lift pop in
      whileNotEmpty fuel' (String.append postfixExpression (to_text v))
    else retP postfixExpression
  end.

(** The body of the [for ... of] loop of [convert]. *)
Definition step (fuel : nat) (char : string) (postfixExpression : string)
  : Part (StackObj string) string :=
  if (char === "(") || (char === "{") || (char === "[") then
    let? _ := lift (push char) in retP postfixExpression
  else if (char === ")") || (char === "}") || (char === "]") then
    let? out := whileNoOpener fuel postfixExpression in
    let? _ := lift pop in
    retP out
  else if isOperator char then
    let? out := whileNotLower fuel char postfixExpression in
    let? _ := lift (push char) in
    retP out
  else retP (String.append postfixExpression char).

Fixpoint forOf (fuel : nat) (cs : list string) (postfixExpression : string)
  : Part (StackObj string) string :=
  match cs with
  | [] => retP postfixExpression
  | char :: rest =>
    let? out := step fuel char postfixExpression in
    forOf fuel rest out
  end.

(** [convert]; every [while] loop may run for [fuel] iterations. *)
Definition convert (fuel : nat) (expression : string)
  : Part (StackObj string) string :=
  let? out := forOf fuel (chars expression) "" in
  whileNotEmpty fuel out.

(** The module-level converter every call goes through. *)
Definition infixToPostfix : StackObj string := new.

(** Successive calls [infixToPostfix.convert(e)], for the [e] of
    [inputs] in that order. *)
Fixpoint calls (fuel : nat) (inputs : list string)
  : Part (StackObj string) (list string) :=
  match inputs with
  | [] => retP []
  | e :: rest =>
    let? o := convert fuel e in
    let? os := calls fuel rest in
    retP (o :: os)
  end.

(** What a call returns, if it returns. *)
Definition returned {S A : Type} (o : option (Res S A)) : option A :=
  match o with
  | Some r => Some (ret_val r)
  | None => None
  end.
End InfixToPostfixStack.

(** The stack built by the demonstration in [stack.ts]: 1 to 9 pushed
    on a new stack, which fills it. *)
Definition demoStack : StackObj Z :=
  post (Stack.pushes [1; 2; 3; 4; 5; 6; 7; 8; 9]%Z Stack.new).

(** A full stack with a pending history entry: the top of [demoStack]
    popped and 10 pushed in its place. *)
Definition refilledStack : StackObj Z :=
  post (Stack.push 10%Z (post (Stack.pop demoStack))).

(** ** The balance check as the specification words it

    Written from the specification (section 4.3), to be compared with
    [BalancedStack.isBalanced]: brackets are tagged by kind, an opening
    bracket is pushed, a closing bracket fails at once on an empty stack
    or on a popped kind that differs from its own, other characters are
    ignored, and the expression is balanced iff the stack ends empty. *)

Inductive BracketKind : Type := Paren | Square | Curly.

Inductive Glyph : Type :=
| Open (k : BracketKind)
| Close (k : BracketKind)
| Other.

Definition classify (char : string) : Glyph :=
  if char === "(" then Open Paren
  else if char === "[" then Open Square
  else if char === "{" then Open Curly
  else if char === ")" then Close Paren
  else if char === "]" then Close Square
  else if char === "}" then Close Curly
  else Other.

Definition openGlyph (k : BracketKind) : string :=
  match k with
  | Paren => "("
  | Square => "["
  | Curly => "{"
  end.

Definition sameKind (k1 k2 : BracketKind) : bool :=
  match k1, k2 with
  | Paren, Paren | Square, Square | Curly, Curly => true
  | _, _ => false
  end.

Fixpoint is_balanced_from (stack : list BracketKind) (cs : list string) : bool :=
  match cs with
  | [] => match stack with [] => true | _ :: _ => false end
  | char :: rest =>
    match classify char with
    | Open k => is_balanced_from (k :: stack) rest
    | Close k =>
      match stack with
      | [] => false
      | popped :: stack' =>
        if sameKind popped k then is_balanced_from stack' rest else false
      end
    | Other => is_balanced_from stack rest
    end
  end.

Definition is_balanced (expression : string) : bool :=
  is_balanced_from [] (chars expression).

(** ** What a call can observe of a stack object

    Two objects have the [same_live] contents when their cells up to
    [topLevel] hold the same values; cells above [topLevel], the
    [length] field and the undo-history may differ. *)

Definition same_live {T : Type} (s1 s2 : StackObj T) : Prop :=
  exists stk, holds s1 stk /\ holds s2 stk.

Definition agree {T A : Type} (r1 r2 : Res (StackObj T) A) : Prop :=
  ret_val r1 = ret_val r2 /\
  console r1 = console r2 /\
  same_live (post r1) (post r2).

Definition agreeP {T A : Type} (o1 o2 : option (Res (StackObj T) A)) : Prop :=
  match o1, o2 with
  | Some r1, Some r2 => agree r1 r2
  | None, None => True
  | _, _ => False
  end.

(** A computation respects the live contents when runs from objects
    with the same live contents return the same value, write the same
    console lines and leave objects with the same live contents. *)
Definition Respects {T A : Type} (m : Eff (StackObj T) A) : Prop :=
  forall s1 s2, same_live s1 s2 -> agree (m s1) (m s2).

Definition RespectsP {T A : Type} (m : Part (StackObj T) A) : Prop :=
  forall s1 s2, same_live s1 s2 -> agreeP (m s1) (m s2).

(** The texts of a list of stack entries, one after the other. *)
Definition join (l : list string) : string :=
  fold_right String.append "" l.

(** The tests [convert] and [isBalanced] make on a character. *)
Definition isOpener (char : string) : bool :=
  (char === "(") || (char === "{") || (char === "[").

Definition isCloser (char : string) : bool :=
  (char === ")") || (char === "}") || (char === "]").

(** [extends o o']: [o'] returns whatever [o] returns. *)
Definition extends {R : Type} (o o' : option R) : Prop :=
  forall r, o = Some r -> o' = Some r.

(** ** Well-nested expressions

    The expressions in which every bracket is closed by a bracket of
    its own kind, in nesting order; other characters may stand
    anywhere. *)

Definition closeGlyph (k : BracketKind) : string :=
  match k with
  | Paren => ")"
  | Square => "]"
  | Curly => "}"
  end.

Inductive nested : list string -> Prop :=
| nested_nil : nested []
| nested_other c w : classify c = Other -> nested w -> nested (c :: w)
| nested_pair k w1 w2 :
    nested w1 -> nested w2 ->
    nested (openGlyph k :: w1 ++ closeGlyph k :: w2).

(** [closes pending cs]: [cs] closes the brackets [pending] (innermost
    first), and is well nested in between and after. *)
Fixpoint closes (pending : list BracketKind) (cs : list string) : Prop :=
  match pending with
  | [] => nested cs
  | k :: pending' =>
    exists w1 w2, cs = w1 ++ closeGlyph k :: w2 /\ nested w1 /\ closes pending' w2
  end.

(** ** What the converter's scan needs to come to an end *)

(** An operand of [convert]: neither a bracket nor an operator. *)
Definition isOperand (char : string) : bool :=
  negb (isOpener char) && negb (isCloser char) &&
  negb (InfixToPostfixStack.isOperator char).

Definition countOpeners (stk : list string) : nat :=
  List.length (List.filter isOpener stk).

(** The number of openers pending after [char] is scanned with [depth]
    of them pending; [None] when [char] is a closing bracket and no
    opener is pending. *)
Definition pendingAfter (depth : nat) (char : string) : option nat :=
  if isOpener char then Some (S depth)
  else if isCloser char then
    match depth with
    | O => None
    | S depth' => Some depth'
    end
  else Some depth.

(** [closable depth cs]: scanning [cs] with [depth] openers pending,
    every closing bracket finds an opener pending. *)
Fixpoint closable (depth : nat) (cs : list string) : bool :=
  match cs with
  | [] => true
  | char :: rest =>
    match pendingAfter depth char with
    | Some depth' => closable depth' rest
    | None => false
    end
  end.

(** A string of exactly one character. *)
Definition oneChar (c : string) : Prop := chars c = [c].

(** What the converter's stack is made of: openers and operators. *)
Definition symbols (stk : list string) : Prop :=
  Forall (fun t => isOpener t = true \/ InfixToPostfixStack.isOperator t = true) stk.

(** Case analysis on a character: one of the six brackets, or none. *)
Ltac case_char char :=
  destruct (String.eqb_spec char "(") as [->|?];
  [|destruct (String.eqb_spec char "{") as [->|?];
    [|destruct (String.eqb_spec char "[") as [->|?];
      [|destruct (String.eqb_spec char ")") as [->|?];
        [|destruct (String.eqb_spec char "}") as [->|?];
          [|destruct (String.eqb_spec char "]") as [->|?]]]]]].

(** ** Array and representation lemmas *)

Section ArrayFacts.
Context {T : Type}.
Implicit Types (a : list (option T)) (stk : list T).

Lemma array_pop_snoc a x : JsArray.pop (a ++ [x]) = (x, a).
Proof.
  unfold JsArray.pop. rewrite reverse_snoc, reverse_involutive. reflexivity.
Qed.

(** Writing just above the live cells adds one live cell. *)
Lemma take_set_top a n v :
  n <= List.length a ->
  take (S n) (JsArray.set a (Z.of_nat n) v) = take n a ++ [v].
Proof.
  intros Hn. unfold JsArray.set.
  destruct (Z.ltb_spec (Z.of_nat n) 0) as [?|_]; [lia|].
  rewrite Nat2Z.id.
  destruct (Z.ltb_spec (Z.of_nat n) (Z.of_nat (List.length a))) as [Hlt|Hge].
  - assert (Hn' : n < List.length a) by lia.
    destruct (lookup_lt_is_Some_2 (<[n:=v]> a) n) as [y Hy].
    { rewrite length_insert. exact Hn'. }
    rewrite (take_S_r _ _ _ Hy).
    rewrite take_insert_ge by lia.
    rewrite list_lookup_insert_eq in Hy by exact Hn'.
    congruence.
  - assert (n = List.length a) by lia. subst n.
    rewrite Nat.sub_diag. simpl.
    rewrite !take_ge; [reflexivity | lia |].
    rewrite length_app. simpl. lia.
Qed.

Lemma holds_length (s : StackObj T) stk :
  holds s stk -> List.length stk <= List.length (elements s).
Proof.
  intros [_ H]. apply (f_equal List.length) in H.
  rewrite length_take, length_fmap, length_reverse in H. lia.
Qed.

Lemma holds_nil (s : StackObj T) : topLevel s = (-1)%Z -> holds s [].
Proof. intros H. split; [exact H | reflexivity]. Qed.

(** The cell under [topLevel] is the head of the represented stack. *)
Lemma holds_top (s : StackObj T) v stk :
  holds s (v :: stk) -> JsArray.get (elements s) (topLevel s) = Some v.
Proof.
  intros [Ht He]. unfold JsArray.get. rewrite Ht. cbn [List.length] in *.
  destruct (Z.ltb_spec (Z.of_nat (S (List.length stk)) - 1) 0) as [?|_]; [lia|].
  replace (Z.to_nat (Z.of_nat (S (List.length stk)) - 1)) with (List.length stk) by lia.
  assert (Hl : take (S (List.length stk)) (elements s) !! List.length stk
               = Some (Some v)).
  { rewrite He, reverse_cons, fmap_app. simpl.
    rewrite lookup_app_r; rewrite length_fmap, length_reverse; [|lia].
    rewrite Nat.sub_diag. reflexivity. }
  rewrite lookup_take_lt in Hl by lia. rewrite Hl. reflexivity.
Qed.

(** Moving [topLevel] down by one drops the head. *)
Lemma holds_down e t l h e' l' h' v stk :
  holds (mkStack e t l h) (v :: stk) ->
  e' = e ->
  holds (mkStack e' (t - 1) l' h') stk.
Proof.
  intros [Ht He] ->. cbn [topLevel elements List.length] in *. split.
  - cbn. lia.
  - cbn. apply (f_equal (take (List.length stk))) in He.
    rewrite take_take, Nat.min_l in He by lia.
    rewrite He, reverse_cons, fmap_app, take_app_length'; [reflexivity|].
    rewrite length_fmap, length_reverse. reflexivity.
Qed.

(** Writing above [topLevel] and moving it up adds a head. *)
Lemma holds_up e t l h l' h' v stk :
  holds (mkStack e t l h) stk ->
  holds (mkStack (JsArray.set e (t + 1) (Some v)) (t + 1) l' h') (v :: stk).
Proof.
  intros Hh. pose proof (holds_length _ _ Hh) as Hlen.
  destruct Hh as [Ht He]. cbn [topLevel elements List.length] in *. split.
  - cbn. lia.
  - cbn [topLevel elements List.length].
    replace (t + 1)%Z with (Z.of_nat (List.length stk)) by lia.
    rewrite take_set_top by exact Hlen.
    rewrite He, reverse_cons, fmap_app. reflexivity.
Qed.

(** Rewriting the top cell with the value it holds changes nothing. *)
Lemma set_top_same (s : StackObj T) v stk :
  holds s (v :: stk) ->
  JsArray.set (elements s) (topLevel s) (Some v) = elements s.
Proof.
  intros Hh. pose proof (holds_length _ _ Hh) as Hlen.
  pose proof (holds_top _ _ _ Hh) as Hg.
  destruct Hh as [Ht _]. cbn [List.length] in *.
  unfold JsArray.set, JsArray.get in *. rewrite Ht in *.
  destruct (Z.ltb_spec (Z.of_nat (S (List.length stk)) - 1) 0) as [?|_]; [lia|].
  destruct (Z.ltb_spec (Z.of_nat (S (List.length stk)) - 1)
                       (Z.of_nat (List.length (elements s)))) as [_|?]; [|lia].
  apply list_insert_id.
  destruct (elements s !! Z.to_nat (Z.of_nat (S (List.length stk)) - 1)) as [c|] eqn:E;
    simpl in Hg; congruence.
Qed.
End ArrayFacts.

(** ** The bounded stack of [stack.ts] against its data model *)

Section StackFacts.
Context {T : Type}.
Implicit Types (s : StackObj T) (stk hist : list T) (v : T).

Lemma Repr_new : Stack.Repr (@Stack.new T) [] [].
Proof. repeat split; cbn; unfold MAX_SIZE; lia. Qed.

Lemma Repr_top s stk hist :
  Stack.Repr s stk hist -> topLevel s = (length s - 1)%Z.
Proof. intros ((Ht & _) & Hl & _). lia. Qed.

(** [push] below capacity. *)
Lemma push_ok s stk hist v :
  Stack.Repr s stk hist -> (length s < MAX_SIZE)%Z ->
  exists s', Stack.push v s = Done tt s' [] /\ Stack.Repr s' (v :: stk) hist.
Proof.
  intros HR Hlt. pose proof (Repr_top _ _ _ HR) as Ht.
  destruct HR as (Hh & Hl & Hhist & Hcap).
  unfold Stack.push.
  destruct (Z.geb_spec (topLevel s) (MAX_SIZE - 1)) as [?|_]; [lia|].
  eexists. split; [reflexivity|].
  destruct s as [e t l h]. cbn [topLevel elements length _poppedHistory] in *.
  repeat split.
  - apply (holds_up e t l h _ _ v stk Hh).
  - apply (holds_up e t l h (l + 1)%Z h v stk Hh).
  - cbn. lia.
  - exact Hhist.
  - cbn [List.length]. lia.
Qed.

(** [push] at capacity. *)
Lemma push_full s stk hist v :
  Stack.Repr s stk hist -> length s = MAX_SIZE ->
  Stack.push v s = Done tt s ["stack overflow"].
Proof.
  intros HR Hfull. pose proof (Repr_top _ _ _ HR) as Ht.
  unfold Stack.push.
  destruct (Z.geb_spec (topLevel s) (MAX_SIZE - 1)) as [_|?]; [reflexivity|lia].
Qed.

(** [pop] of a non-empty stack. *)
Lemma pop_ok s stk hist v :
  Stack.Repr s (v :: stk) hist ->
  exists s', Stack.pop s = Done (Some v) s' [] /\
             Stack.Repr s' stk (hist ++ [v]) /\
             elements s' = elements s.
Proof.
  intros HR. pose proof (Repr_top _ _ _ HR) as Ht.
  destruct HR as (Hh & Hl & Hhist & Hcap).
  pose proof (holds_top _ _ _ Hh) as Hg.
  unfold Stack.pop. cbn [List.length] in *.
  destruct (Z.ltb_spec (topLevel s) 0) as [?|_]; [lia|].
  rewrite Hg. eexists. split; [reflexivity|].
  destruct s as [e t l h]. cbn [topLevel elements length _poppedHistory] in *.
  repeat split.
  - cbn. lia.
  - apply (holds_down e t l h e (l - 1)%Z _ v stk Hh eq_refl).
  - cbn. lia.
  - cbn. unfold JsArray.push. rewrite Hhist, fmap_app. reflexivity.
  - lia.
Qed.

(** [pop] of an empty stack. *)
Lemma pop_empty s stk hist :
  Stack.Repr s stk hist -> length s = 0%Z ->
  Stack.pop s = Done None s ["stack underflow"].
Proof.
  intros HR H0. pose proof (Repr_top _ _ _ HR) as Ht.
  unfold Stack.pop.
  destruct (Z.ltb_spec (topLevel s) 0) as [_|?]; [reflexivity|lia].
Qed.

Lemma peek_top s stk hist v :
  Stack.Repr s (v :: stk) hist -> Stack.peek s = Done (Some v) s [].
Proof.
  intros HR. pose proof (Repr_top _ _ _ HR) as Ht.
  destruct HR as (Hh & Hl & _ & _). cbn [List.length] in Hl.
  unfold Stack.peek.
  destruct (Z.ltb_spec (topLevel s) 0) as [?|_]; [lia|].
  rewrite (holds_top _ _ _ Hh). reflexivity.
Qed.

(** What [undo] does first: it takes the last entry off the history. *)
Lemma undo_unfold s stk hist v :
  Stack.Repr s stk (hist ++ [v]) ->
  let s0 := mkStack (elements s) (topLevel s) (length s) (Some <$> hist) in
  Stack.Repr s0 stk hist /\
  Stack.undo s =
    Done (Some v) (post (Stack.push v s0)) (console (Stack.push v s0) ++ []).
Proof.
  intros (Hh & Hl & Hhist & Hcap). cbn zeta. split.
  - repeat split; try assumption; apply Hh.
  - unfold Stack.undo. rewrite Hhist, fmap_app. cbn [fmap list_fmap].
    rewrite array_pop_snoc. reflexivity.
Qed.

(** [undo] below capacity restores the most recent entry. *)
Lemma undo_ok s stk hist v :
  Stack.Repr s stk (hist ++ [v]) -> (length s < MAX_SIZE)%Z ->
  exists s', Stack.undo s = Done (Some v) s' [] /\ Stack.Repr s' (v :: stk) hist.
Proof.
  intros HR Hlt. destruct (undo_unfold _ _ _ _ HR) as [HR0 ->].
  destruct (push_ok _ _ _ v HR0 Hlt) as (s' & -> & HR').
  exists s'. split; [reflexivity | exact HR'].
Qed.

(** [undo] right after [pop] gives back the very same object. *)
Lemma undo_pop s stk hist v :
  Stack.Repr s (v :: stk) hist ->
  Stack.undo (post (Stack.pop s)) = Done (Some v) s [].
Proof.
  intros HR. destruct (pop_ok _ _ _ _ HR) as (s1 & Hpop & HR1 & He).
  rewrite Hpop. cbn [post].
  destruct (undo_unfold _ _ _ _ HR1) as [_ ->].
  pose proof (Repr_top _ _ _ HR) as Ht.
  destruct HR as (Hh & Hl & Hhist & Hcap).
  unfold Stack.pop in Hpop. cbn [List.length] in *.
  destruct (Z.ltb_spec (topLevel s) 0) as [?|_]; [lia|].
  injection Hpop as _ <-. cbn [topLevel elements length _poppedHistory].
  unfold Stack.push. cbn [topLevel elements length _poppedHistory].
  destruct (Z.geb_spec (topLevel s - 1) (MAX_SIZE - 1)) as [?|_]; [lia|].
  cbn [post console app].
  replace (topLevel s - 1 + 1)%Z with (topLevel s) by lia.
  replace (length s - 1 + 1)%Z with (length s) by lia.
  rewrite (set_top_same _ _ _ Hh), <- Hhist.
  destruct s; reflexivity.
Qed.

(** Every stack that callers can build from a new one fits the data
    model. *)
Lemma perform_Repr (c : Stack.call) s stk hist :
  Stack.Repr s stk hist ->
  exists stk' hist', Stack.Repr (Stack.perform c s) stk' hist'.
Proof.
  intros HR. destruct c as [value| |]; cbn [Stack.perform].
  - destruct (Z.eq_dec (length s) MAX_SIZE) as [Hfull|Hne].
    + rewrite (push_full _ _ _ value HR Hfull). exists stk, hist. exact HR.
    + destruct (push_ok _ _ _ value HR) as (s' & -> & HR').
      { destruct HR as (_ & Hl & _ & Hcap). lia. }
      exists (value :: stk), hist. exact HR'.
  - destruct stk as [|v stk].
    + rewrite (pop_empty _ _ _ HR); [exists [], hist; exact HR|].
      destruct HR as (_ & Hl & _). exact Hl.
    + destruct (pop_ok _ _ _ _ HR) as (s' & -> & HR' & _).
      exists stk, (hist ++ [v]). exact HR'.
  - destruct hist as [|v hist _] using rev_ind.
    + exists stk, []. destruct HR as (Hh & Hl & Hhist & Hcap).
      unfold Stack.undo. rewrite Hhist. cbn.
      repeat split; try assumption; apply Hh.
    + destruct (undo_unfold _ _ _ _ HR) as [HR0 ->]. cbn [post].
      destruct (Z.eq_dec (length s) MAX_SIZE) as [Hfull|Hne].
      * rewrite (push_full _ _ _ v HR0 Hfull). exists stk, hist. exact HR0.
      * destruct (push_ok _ _ _ v HR0) as (s' & -> & HR').
        { destruct HR as (_ & Hl & _ & Hcap). cbn. lia. }
        exists (v :: stk), hist. exact HR'.
Qed.

Lemma performAll_Repr (cs : list Stack.call) :
  exists stk hist, Stack.Repr (Stack.performAll cs Stack.new) stk hist.
Proof.
  unfold Stack.performAll.
  assert (Hgen : forall s stk hist, Stack.Repr s stk hist ->
            exists stk' hist',
              Stack.Repr (fold_left (fun this c => Stack.perform c this) cs s)
                         stk' hist').
  { induction cs as [|c cs IH]; intros s stk hist HR; [exists stk, hist; exact HR|].
    cbn [fold_left]. destruct (perform_Repr c _ _ _ HR) as (stk1 & hist1 & HR1).
    exact (IH _ _ _ HR1). }
  exact (Hgen _ _ _ Repr_new).
Qed.

(** Running pushes within capacity. *)
Lemma pushes_ok vs : forall s stk hist,
  Stack.Repr s stk hist ->
  (length s + Z.of_nat (List.length vs) <= MAX_SIZE)%Z ->
  exists s', Stack.pushes vs s = Done tt s' [] /\
             Stack.Repr s' (reverse vs ++ stk) hist.
Proof.
  induction vs as [|v vs IH]; intros s stk hist HR Hcap.
  - exists s. split; [reflexivity | exact HR].
  - cbn [List.length] in Hcap.
    destruct (push_ok _ _ _ v HR) as (s1 & Hp & HR1); [lia|].
    destruct (IH s1 (v :: stk) hist HR1) as (s2 & Hps & HR2).
    { destruct HR as (_ & Hl & _), HR1 as (_ & Hl1 & _).
      cbn [List.length] in Hl1. lia. }
    exists s2. split.
    + cbn [Stack.pushes]. unfold bind. rewrite Hp. cbn [post ret_val console].
      rewrite Hps. reflexivity.
    + rewrite reverse_cons, <- app_assoc. exact HR2.
Qed.

(** Running pops takes the elements off from the top down. *)
Lemma pops_ok ps : forall s stk hist,
  Stack.Repr s (ps ++ stk) hist ->
  exists s', Stack.pops (List.length ps) s = Done (Some <$> ps) s' [] /\
             Stack.Repr s' stk (hist ++ ps).
Proof.
  induction ps as [|p ps IH]; intros s stk hist HR.
  - exists s. rewrite app_nil_r. split; [reflexivity | exact HR].
  - destruct (pop_ok _ _ _ _ HR) as (s1 & Hp & HR1 & _).
    destruct (IH s1 stk _ HR1) as (s2 & Hps & HR2).
    exists s2. split.
    + cbn [Stack.pops List.length]. unfold bind, ret. rewrite Hp.
      cbn [post ret_val console]. rewrite Hps. reflexivity.
    + rewrite <- app_assoc in HR2. exact HR2.
Qed.

Lemma undos_snoc n : forall s,
  Stack.undos (S n) s =
    let r := Stack.undos n s in
    let r' := Stack.undo (post r) in
    Done (ret_val r ++ [ret_val r']) (post r') (console r ++ console r').
Proof.
  induction n as [|n IH]; intros s.
  - cbn. unfold bind, ret. cbn. rewrite app_nil_r. reflexivity.
  - change (Stack.undos (S (S n)) s) with
      ((let* v := Stack.undo in let* vs := Stack.undos (S n) in ret (v :: vs)) s).
    unfold bind at 1 2. rewrite IH. cbn [Stack.undos]. unfold bind, ret.
    cbn [ret_val post console]. rewrite !app_nil_r, app_assoc. reflexivity.
Qed.

(** [n] pops followed by [n] undos: the undos hand the values back in
    the reverse order of their removal and restore the object. *)
Lemma pops_undos ps : forall s stk hist,
  Stack.Repr s (ps ++ stk) hist ->
  exists s', Stack.pops (List.length ps) s = Done (Some <$> ps) s' [] /\
             Stack.undos (List.length ps) s' = Done (Some <$> reverse ps) s [].
Proof.
  induction ps as [|p ps IH]; intros s stk hist HR.
  - exists s. split; reflexivity.
  - pose proof (undo_pop _ _ _ _ HR) as Hup.
    destruct (pop_ok _ _ _ _ HR) as (s1 & Hp & HR1 & _).
    rewrite Hp in Hup. cbn [post] in Hup.
    destruct (IH s1 stk _ HR1) as (s2 & Hps & Hus).
    exists s2. split.
    + cbn [Stack.pops List.length]. unfold bind, ret. rewrite Hp.
      cbn [post ret_val console]. rewrite Hps. reflexivity.
    + cbn [List.length]. rewrite undos_snoc. cbn zeta. rewrite Hus.
      cbn [post ret_val console]. rewrite Hup. cbn [post ret_val console].
      rewrite reverse_cons, fmap_app. reflexivity.
Qed.
End StackFacts.

(** ** Claims about the bounded stack *)

Lemma Repr_demoStack :
  Stack.Repr demoStack [9; 8; 7; 6; 5; 4; 3; 2; 1]%Z [].
Proof. repeat split; try reflexivity; try (unfold MAX_SIZE; cbn; lia). Defined.

Lemma Repr_refilledStack :
  Stack.Repr refilledStack [10; 8; 7; 6; 5; 4; 3; 2; 1]%Z ([] ++ [9%Z]).
Proof. repeat split; try reflexivity; try (unfold MAX_SIZE; cbn; lia). Defined.

Section StackClaims.
Context {T : Type}.
Implicit Types (s : StackObj T) (stk hist : list T) (v : T).

(** C7. Failed operations are atomic: [pop] with a count of 0 reports
    the underflow, returns [undefined] and leaves the whole object
    (elements, [topLevel], [length], history) as it was; [push] with a
    count of [MAX_SIZE] reports the overflow and leaves the whole
    object as it was. *)
Theorem failed_operations_atomic s stk hist v :
  Stack.Repr s stk hist ->
  (length s = 0%Z -> Stack.pop s = Done None s ["stack underflow"]) /\
  (length s = MAX_SIZE -> Stack.push v s = Done tt s ["stack overflow"]).
Proof.
  intros HR. split; intros H.
  - exact (pop_empty _ _ _ HR H).
  - exact (push_full _ _ _ v HR H).
Qed.

(** C8. LIFO law: values pushed on a new stack within the capacity
    come back from as many pops in the reverse order of insertion,
    with nothing reported on the console and the stack empty again. *)
Theorem lifo_law (values : list T) :
  (Z.of_nat (List.length values) <= MAX_SIZE)%Z ->
  let pushed := Stack.pushes values Stack.new in
  let popped := Stack.pops (List.length values) (post pushed) in
  console pushed = [] /\
  ret_val popped = Some <$> reverse values /\
  console popped = [] /\
  Stack.Repr (post popped) [] (reverse values).
Proof.
  intros Hcap pushed popped. subst pushed popped.
  destruct (pushes_ok values _ _ _ (@Repr_new T)) as (s1 & Hp & HR1).
  { cbn. lia. }
  rewrite Hp. cbn [post console].
  rewrite <- (length_reverse values).
  destruct (pops_ok (reverse values) s1 [] [] HR1) as (s2 & Hps & HR2).
  rewrite Hps. cbn [post console ret_val].
  repeat split; try reflexivity; apply HR2.
Qed.

(** C9. Multi-level undo: on a stack of at least two elements, pop,
    pop, undo, undo returns the top, the element under it, then that
    element again and the top again (the value popped last is restored
    first), and leaves the object exactly as it was before the pops.
    In general [n] pops followed by [n] undos replay the pops in
    reverse chronological order and restore the object. *)
Theorem multi_level_undo s stk hist :
  (forall a b, Stack.Repr s (b :: a :: stk) hist ->
     let r1 := Stack.pop s in
     let r2 := Stack.pop (post r1) in
     let r3 := Stack.undo (post r2) in
     let r4 := Stack.undo (post r3) in
     ret_val r1 = Some b /\ ret_val r2 = Some a /\
     ret_val r3 = Some a /\ ret_val r4 = Some b /\
     Stack.Repr (post r2) stk (hist ++ [b; a]) /\
     Stack.Repr (post r3) (a :: stk) (hist ++ [b]) /\
     Stack.Repr (post r4) (b :: a :: stk) hist /\
     post r4 = s /\
     console r1 ++ console r2 ++ console r3 ++ console r4 = []) /\
  (forall removed, Stack.Repr s (removed ++ stk) hist ->
     let popped := Stack.pops (List.length removed) s in
     let undone := Stack.undos (List.length removed) (post popped) in
     ret_val popped = Some <$> removed /\
     ret_val undone = Some <$> reverse removed /\
     Stack.Repr (post popped) stk (hist ++ removed) /\
     post undone = s /\
     console popped ++ console undone = []).
Proof.
  split.
  - intros a b HR r1 r2 r3 r4. subst r1 r2 r3 r4.
    pose proof (undo_pop _ _ _ _ HR) as Hu1.
    destruct (pop_ok _ _ _ _ HR) as (s1 & Hp1 & HR1 & _).
    rewrite Hp1 in *. cbn [post ret_val console] in *.
    pose proof (undo_pop _ _ _ _ HR1) as Hu2.
    destruct (pop_ok _ _ _ _ HR1) as (s2 & Hp2 & HR2 & _).
    rewrite Hp2 in *. cbn [post ret_val console] in *.
    rewrite Hu2. cbn [post ret_val console]. rewrite Hu1.
    cbn [post ret_val console].
    rewrite <- app_assoc in HR2.
    repeat split; try reflexivity; first [apply HR2 | apply HR1 | apply HR].
  - intros removed HR popped undone. subst popped undone.
    destruct (pops_ok removed _ _ _ HR) as (s1 & Hp & HR1).
    destruct (pops_undos removed _ _ _ HR) as (s1' & Hp' & Hu).
    rewrite Hp in Hp'. injection Hp' as <-.
    rewrite Hp. cbn [post ret_val console]. rewrite Hu.
    repeat split; try reflexivity; apply HR1.
Qed.

(** C1, amended. With a non-empty history and a count below
    [MAX_SIZE], [undo] takes the most recent entry off the history,
    pushes it back so that it is the new top, and returns it.  [undo]
    restores through the capacity-checked [push]: with a count of
    [MAX_SIZE] that push is refused with "stack overflow" and the
    elements and the count stay as they were. *)
Theorem undo_restores_below_capacity s stk hist v :
  Stack.Repr s stk (hist ++ [v]) ->
  ((length s < MAX_SIZE)%Z ->
     exists s', Stack.undo s = Done (Some v) s' [] /\
                Stack.Repr s' (v :: stk) hist /\
                ret_val (Stack.peek s') = Some v /\
                length s' = (length s + 1)%Z) /\
  (length s = MAX_SIZE ->
     holds (post (Stack.undo s)) stk /\
     elements (post (Stack.undo s)) = elements s /\
     length (post (Stack.undo s)) = length s /\
     console (Stack.undo s) = ["stack overflow"]).
Proof.
  intros HR. split; intros Hc.
  - destruct (undo_ok _ _ _ _ HR Hc) as (s' & Hu & HR').
    exists s'. repeat split; try assumption; try apply HR'.
    + rewrite (peek_top _ _ _ _ HR'). reflexivity.
    + destruct HR as (_ & Hl & _), HR' as (_ & Hl' & _).
      cbn [List.length] in Hl'. lia.
  - destruct (undo_unfold _ _ _ _ HR) as [HR0 ->].
    rewrite (push_full _ _ _ v HR0 Hc). cbn [post console app].
    repeat split; try reflexivity; apply HR0.
Qed.
End StackClaims.

Lemma failed_operations_atomic_witness :
  Stack.pop (@Stack.new Z) = Done None Stack.new ["stack underflow"] /\
  Stack.push 10%Z demoStack = Done tt demoStack ["stack overflow"].
Proof.
  split.
  - assert (HR : Stack.Repr (@Stack.new Z) [] []).
    { repeat split; try reflexivity; try (unfold MAX_SIZE; cbn; lia). }
    apply (proj1 (failed_operations_atomic Stack.new [] [] 0%Z HR)).
    reflexivity.
  - apply (proj2 (failed_operations_atomic demoStack _ _ 10%Z Repr_demoStack)).
    reflexivity.
Defined.

Lemma lifo_law_witness :
  ret_val (Stack.pops 3 (post (Stack.pushes [1; 2; 3]%Z Stack.new)))
  = [Some 3; Some 2; Some 1]%Z.
Proof.
  apply (lifo_law [1; 2; 3]%Z). unfold MAX_SIZE. cbn. lia.
Defined.

Lemma multi_level_undo_witness :
  let r1 := Stack.pop demoStack in
  let r2 := Stack.pop (post r1) in
  let r3 := Stack.undo (post r2) in
  let r4 := Stack.undo (post r3) in
  (ret_val r1, ret_val r2, ret_val r3, ret_val r4)
    = (Some 9, Some 8, Some 8, Some 9)%Z /\
  post r4 = demoStack.
Proof.
  cbv zeta.
  destruct (proj1 (multi_level_undo demoStack [7; 6; 5; 4; 3; 2; 1]%Z [])
              8%Z 9%Z Repr_demoStack)
    as (H1 & H2 & H3 & H4 & _ & _ & _ & H5 & _).
  rewrite H1, H2, H3, H4. split; [reflexivity | exact H5].
Defined.

Lemma undo_restores_below_capacity_witness :
  (exists s', Stack.undo (post (Stack.pop demoStack)) = Done (Some 9%Z) s' [] /\
              ret_val (Stack.peek s') = Some 9%Z) /\
  console (Stack.undo refilledStack) = ["stack overflow"].
Proof.
  split.
  - assert (HR : Stack.Repr (post (Stack.pop demoStack))
                   [8; 7; 6; 5; 4; 3; 2; 1]%Z ([] ++ [9%Z])).
    { repeat split; try reflexivity; try (unfold MAX_SIZE; cbn; lia). }
    destruct (proj1 (undo_restores_below_capacity _ _ _ _ HR))
      as (s' & Hu & _ & Hp & _).
    + vm_compute. reflexivity.
    + exists s'. split; assumption.
  - apply (proj2 (undo_restores_below_capacity _ _ _ _ Repr_refilledStack)).
    reflexivity.
Defined.

(** C1 as stated fails: [refilledStack] has a non-empty history and a
    count of [MAX_SIZE]; [undo] takes 9 off the history and returns it,
    but its push is refused, so 9 is not put back and 10 stays on top. *)
Lemma undo_at_capacity_drops_value :
  _poppedHistory refilledStack = [Some 9%Z] /\
  length refilledStack = MAX_SIZE /\
  ret_val (Stack.undo refilledStack) = Some 9%Z /\
  console (Stack.undo refilledStack) = ["stack overflow"] /\
  elements (post (Stack.undo refilledStack)) = elements refilledStack /\
  length (post (Stack.undo refilledStack)) = MAX_SIZE /\
  _poppedHistory (post (Stack.undo refilledStack)) = [] /\
  ret_val (Stack.peek (post (Stack.undo refilledStack))) = Some 10%Z /\
  ret_val (Stack.peek (post (Stack.undo refilledStack))) <> Some 9%Z.
Proof. repeat split; try reflexivity. discriminate. Qed.

(** ** The unbounded stacks of [BalancedStack.ts] and the converter *)

Section UnboundedFacts.
Context {T : Type}.
Implicit Types (s : StackObj T) (stk : list T) (v : T).

Lemma bpush_holds s stk v :
  holds s stk ->
  console (BalancedStack.push v s) = [] /\
  holds (post (BalancedStack.push v s)) (v :: stk).
Proof.
  intros Hh. split; [reflexivity|].
  destruct s as [e t l h]. apply (holds_up e t l h _ _ v stk Hh).
Qed.

Lemma bpop_holds s stk v :
  holds s (v :: stk) ->
  ret_val (BalancedStack.pop s) = Some v /\
  console (BalancedStack.pop s) = [] /\
  holds (post (BalancedStack.pop s)) stk.
Proof.
  intros Hh. pose proof (holds_top _ _ _ Hh) as Hg.
  unfold BalancedStack.pop. destruct (Z.ltb_spec (topLevel s) 0) as [Hneg|_].
  { destruct Hh as [Ht _]. cbn [List.length] in Ht. lia. }
  cbn [ret_val console post]. split; [exact Hg|]. split; [reflexivity|].
  destruct s as [e t l h].
  apply (holds_down e t l h e _ _ v stk Hh eq_refl).
Qed.

Lemma bpop_empty s :
  holds s [] -> BalancedStack.pop s = Done None s ["stack underflow"].
Proof.
  intros [Ht _]. unfold BalancedStack.pop. cbn in Ht.
  destruct (Z.ltb_spec (topLevel s) 0) as [_|?]; [reflexivity|lia].
Qed.

Lemma bpeek_holds s stk v :
  holds s (v :: stk) -> BalancedStack.peek s = Done (Some v) s [].
Proof.
  intros Hh. pose proof (holds_top _ _ _ Hh) as Hg.
  unfold BalancedStack.peek. destruct (Z.ltb_spec (topLevel s) 0) as [Hneg|_].
  { destruct Hh as [Ht _]. cbn [List.length] in Ht. lia. }
  rewrite Hg. reflexivity.
Qed.

Lemma bpeek_empty s :
  holds s [] -> BalancedStack.peek s = Done None s ["stack underflow"].
Proof.
  intros [Ht _]. unfold BalancedStack.peek. cbn in Ht.
  destruct (Z.ltb_spec (topLevel s) 0) as [_|?]; [reflexivity|lia].
Qed.

Lemma bisEmpty_holds s stk :
  holds s stk ->
  BalancedStack.isEmpty s =
    Done (match stk with [] => true | _ :: _ => false end) s [].
Proof.
  intros [Ht _]. unfold BalancedStack.isEmpty.
  destruct stk; cbn [List.length] in Ht;
    destruct (Z.ltb_spec (topLevel s) 0); try lia; reflexivity.
Qed.
End UnboundedFacts.

(** ** Computations that respect the live contents *)

Section RespectFacts.
Context {T : Type}.
Implicit Types (s : StackObj T) (stk : list T) (v : T).

Lemma same_live_diag s stk : holds s stk -> same_live s s.
Proof. intros H. exists stk. split; exact H. Qed.

Lemma same_live_empty s1 s2 : holds s1 [] -> holds s2 [] -> same_live s1 s2.
Proof. intros H1 H2. exists []. split; assumption. Qed.

Lemma respects_ret {A : Type} (a : A) : Respects (T:=T) (ret a).
Proof. intros s1 s2 H. repeat split. exact H. Qed.

Lemma respects_bind {A B : Type} (m : Eff (StackObj T) A)
      (k : A -> Eff (StackObj T) B) :
  Respects m -> (forall a, Respects (k a)) -> Respects (bind m k).
Proof.
  intros Hm Hk s1 s2 H. unfold bind.
  destruct (Hm s1 s2 H) as (Hr & Hc & Hs). rewrite Hr.
  destruct (Hk (ret_val (m s2)) _ _ Hs) as (Hr' & Hc' & Hs').
  repeat split; cbn [ret_val console post]; congruence || assumption.
Qed.

Lemma respects_push v : Respects (BalancedStack.push v).
Proof.
  intros s1 s2 (stk & H1 & H2). repeat split.
  exists (v :: stk). split; apply bpush_holds; assumption.
Qed.

Lemma respects_pop : Respects (T:=T) BalancedStack.pop.
Proof.
  intros s1 s2 (stk & H1 & H2). destruct stk as [|v stk].
  - rewrite (bpop_empty _ H1), (bpop_empty _ H2). repeat split.
    exists []. split; assumption.
  - destruct (bpop_holds _ _ _ H1) as (R1 & C1 & P1).
    destruct (bpop_holds _ _ _ H2) as (R2 & C2 & P2).
    repeat split; try congruence. exists stk. split; assumption.
Qed.

Lemma respects_peek : Respects (T:=T) BalancedStack.peek.
Proof.
  intros s1 s2 (stk & H1 & H2). destruct stk as [|v stk].
  - rewrite (bpeek_empty _ H1), (bpeek_empty _ H2). repeat split.
    exists []. split; assumption.
  - rewrite (bpeek_holds _ _ _ H1), (bpeek_holds _ _ _ H2). repeat split.
    exists (v :: stk). split; assumption.
Qed.

Lemma respects_isEmpty : Respects (T:=T) BalancedStack.isEmpty.
Proof.
  intros s1 s2 (stk & H1 & H2).
  rewrite (bisEmpty_holds _ _ H1), (bisEmpty_holds _ _ H2). repeat split.
  exists stk. split; assumption.
Qed.

Lemma respectsP_ret {A : Type} (a : A) : RespectsP (T:=T) (retP a).
Proof. intros s1 s2 H. repeat split. exact H. Qed.

Lemma respectsP_lift {A : Type} (m : Eff (StackObj T) A) :
  Respects m -> RespectsP (lift m).
Proof. intros Hm s1 s2 H. exact (Hm s1 s2 H). Qed.

Lemma respectsP_bind {A B : Type} (m : Part (StackObj T) A)
      (k : A -> Part (StackObj T) B) :
  RespectsP m -> (forall a, RespectsP (k a)) -> RespectsP (bindP m k).
Proof.
  intros Hm Hk s1 s2 H. unfold bindP.
  specialize (Hm s1 s2 H). unfold agreeP in Hm.
  destruct (m s1) as [r1|], (m s2) as [r2|]; try contradiction; [|exact I].
  destruct Hm as (Hr & Hc & Hs). rewrite Hr.
  specialize (Hk (ret_val r2) _ _ Hs). unfold agreeP in Hk.
  destruct (k (ret_val r2) (post r1)) as [r1'|],
           (k (ret_val r2) (post r2)) as [r2'|]; try contradiction; [|exact I].
  destruct Hk as (Hr' & Hc' & Hs').
  repeat split; cbn [ret_val console post]; congruence || assumption.
Qed.
End RespectFacts.

(** ** [isBalanced] *)

Section BalancedFacts.
Implicit Types (s : StackObj string) (ks : list BracketKind).

Lemma respects_scan cs : Respects (BalancedStack.scan cs).
Proof.
  induction cs as [|char rest IH]; [exact respects_isEmpty|].
  cbn [BalancedStack.scan].
  destruct ((char === "(") || (char === "{") || (char === "[")).
  { apply respects_bind; [apply respects_push | intros _; exact IH]. }
  destruct ((char === ")") || (char === "}") || (char === "]")); [|exact IH].
  apply respects_bind; [apply respects_isEmpty|].
  intros [|]; [apply respects_ret|].
  apply respects_bind; [apply respects_pop|]. intros top.
  match goal with |- Respects (if ?c then _ else _) => destruct c end;
    [apply respects_ret | exact IH].
Qed.

(** [scan] computes what the specification's check computes, kind by
    kind. *)
Lemma scan_refines cs : forall ks s,
  holds s (openGlyph <$> ks) ->
  ret_val (BalancedStack.scan cs s) = is_balanced_from ks cs.
Proof.
  induction cs as [|char rest IH]; intros ks s Hh.
  - cbn [BalancedStack.scan is_balanced_from].
    rewrite (bisEmpty_holds _ _ Hh). destruct ks; reflexivity.
  - assert (Hopen : forall k,
              ret_val ((let* _ := BalancedStack.push (openGlyph k) in
                        BalancedStack.scan rest) s)
              = is_balanced_from (k :: ks) rest).
    { intros k. unfold bind. cbn [ret_val]. apply IH.
      apply (bpush_holds s _ (openGlyph k) Hh). }
    assert (Hclose : forall k (test : option string -> bool),
              (forall k', test (Some (openGlyph k')) = negb (sameKind k' k)) ->
              ret_val ((let* empty := BalancedStack.isEmpty in
                        if empty then ret false
                        else let* top := BalancedStack.pop in
                             if test top then ret false
                             else BalancedStack.scan rest) s)
              = match ks with
                | [] => false
                | popped :: stack' =>
                  if sameKind popped k then is_balanced_from stack' rest
                  else false
                end).
    { intros k test Htest. unfold bind.
      rewrite (bisEmpty_holds _ _ Hh). cbn [ret_val post console].
      destruct ks as [|k' ks']; [reflexivity|].
      cbn [fmap list_fmap] in *.
      destruct (bpop_holds _ _ _ Hh) as (Hr & _ & Hp).
      rewrite Hr, Htest. cbn [ret_val].
      destruct (sameKind k' k); cbn [negb ret_val ret];
        [apply IH; exact Hp | reflexivity]. }
    cbn [BalancedStack.scan is_balanced_from]. unfold classify.
    case_char char.
    + exact (Hopen Paren).
    + exact (Hopen Curly).
    + exact (Hopen Square).
    + apply (Hclose Paren (fun top => _)). intros []; reflexivity.
    + apply (Hclose Curly (fun top => _)). intros []; reflexivity.
    + apply (Hclose Square (fun top => _)). intros []; reflexivity.
    + cbn [orb]. apply IH. exact Hh.
Qed.

(** A run of [scan] that returns [true] leaves nothing on the stack. *)
Lemma scan_true_leaves_empty cs : forall s stk,
  holds s stk ->
  ret_val (BalancedStack.scan cs s) = true ->
  holds (post (BalancedStack.scan cs s)) [].
Proof.
  induction cs as [|char rest IH]; intros s stk Hh.
  - cbn [BalancedStack.scan]. rewrite (bisEmpty_holds _ _ Hh).
    cbn [ret_val post]. destruct stk; [intros _; exact Hh | discriminate].
  - cbn [BalancedStack.scan].
    destruct ((char === "(") || (char === "{") || (char === "[")).
    { unfold bind. cbn [ret_val post]. apply (IH _ (char :: stk)).
      apply bpush_holds. exact Hh. }
    destruct ((char === ")") || (char === "}") || (char === "]"));
      [|apply (IH _ stk Hh)].
    unfold bind. rewrite (bisEmpty_holds _ _ Hh). cbn [ret_val post].
    destruct stk as [|v stk]; [discriminate|].
    destruct (bpop_holds _ _ _ Hh) as (_ & _ & Hp).
    match goal with |- context [if ?c then ret false else _] => destruct c end;
      [discriminate|].
    cbn [ret_val post]. apply (IH _ stk Hp).
Qed.

Lemma isBalanced_refines (expression : string) s :
  holds s [] ->
  ret_val (BalancedStack.isBalanced expression s) = is_balanced expression.
Proof. intros Hh. exact (scan_refines (chars expression) [] s Hh). Qed.
End BalancedFacts.

(** ** The converter's loops *)

Section ConverterFacts.
Import InfixToPostfixStack.
Implicit Types (s : StackObj string) (stk ops rest : list string).
Implicit Types (out char : string).

Lemma append_assoc (a b c : string) :
  String.append (String.append a b) c = String.append a (String.append b c).
Proof. induction a as [|x a IH]; cbn; [reflexivity | rewrite IH; reflexivity]. Qed.

Lemma append_empty_r (a : string) : String.append a "" = a.
Proof. induction a as [|x a IH]; cbn; [reflexivity | rewrite IH; reflexivity]. Qed.

Lemma or_empty_Some (t : string) : or_empty (Some t) = t.
Proof. cbn. destruct (String.eqb_spec t ""); congruence. Qed.

(** The loop condition of a closing bracket. *)
Lemma noOpenerOnTop_holds s t stk :
  holds s (t :: stk) -> noOpenerOnTop s = Done (negb (isOpener t)) s [].
Proof.
  intros Hh. unfold noOpenerOnTop, bind, peek.
  pose proof (bpeek_holds _ _ _ Hh) as Hp. unfold BalancedStack.peek in Hp.
  rewrite !Hp. cbn [ret_val post console]. unfold strict_ne, strict_eq, isOpener.
  destruct (t === "("); cbn [negb orb]; [reflexivity|].
  rewrite !Hp. cbn [ret_val post console].
  destruct (t === "{"); cbn [negb orb]; [reflexivity|].
  rewrite !Hp. reflexivity.
Qed.

Lemma noOpenerOnTop_empty s :
  holds s [] -> ret_val (noOpenerOnTop s) = true /\ post (noOpenerOnTop s) = s.
Proof.
  intros Hh. unfold noOpenerOnTop, bind, peek.
  pose proof (bpeek_empty _ Hh) as Hp. unfold BalancedStack.peek in Hp.
  rewrite !Hp. cbn. rewrite !Hp. cbn. rewrite !Hp. cbn. split; reflexivity.
Qed.

(** The loop condition of an operator. *)
Lemma notLowerOnTop_holds s t stk char :
  holds s (t :: stk) ->
  notLowerOnTop char s = Done (precedence t >=? precedence char)%Z s [].
Proof.
  intros Hh. unfold notLowerOnTop, bind, isEmpty, peek.
  pose proof (bisEmpty_holds _ _ Hh) as He. unfold BalancedStack.isEmpty in He.
  pose proof (bpeek_holds _ _ _ Hh) as Hp. unfold BalancedStack.peek in Hp.
  rewrite !He. cbn [ret_val post console negb]. rewrite !Hp.
  cbn [ret_val post console ret app]. rewrite or_empty_Some. reflexivity.
Qed.

Lemma notLowerOnTop_empty s char :
  holds s [] -> notLowerOnTop char s = Done false s [].
Proof.
  intros Hh. unfold notLowerOnTop, bind, isEmpty.
  pose proof (bisEmpty_holds _ _ Hh) as He. unfold BalancedStack.isEmpty in He.
  rewrite !He. reflexivity.
Qed.

Lemma pop_holds s t stk :
  holds s (t :: stk) ->
  exists s', pop s = Done (Some t) s' [] /\ holds s' stk.
Proof.
  intros Hh. destruct (bpop_holds _ _ _ Hh) as (Hr & Hc & Hp).
  change (@BalancedStack.pop string) with pop in *.
  exists (post (pop s)). split; [|exact Hp].
  destruct (pop s) as [r p c]. cbn in *. congruence.
Qed.

(** Closing bracket: the entries above the nearest opener, whatever
    its kind, go to the output; the loop stops with that opener on top. *)
Lemma whileNoOpener_ok ops : forall fuel out s opener rest,
  holds s (ops ++ opener :: rest) ->
  Forall (fun t => isOpener t = false) ops ->
  isOpener opener = true ->
  List.length ops < fuel ->
  exists s', whileNoOpener fuel out s
               = Some (Done (String.append out (join ops)) s' []) /\
             holds s' (opener :: rest).
Proof.
  induction ops as [|t ops IH]; intros fuel out s opener rest Hh Hops Ho Hf;
    (destruct fuel as [|fuel]; [cbn in Hf; lia|]);
    cbn [whileNoOpener]; unfold bindP, lift;
    rewrite (noOpenerOnTop_holds _ _ _ Hh); cbn [ret_val post console].
  - rewrite Ho. cbn [negb]. exists s. cbn [join fold_right].
    rewrite append_empty_r. split; [reflexivity | exact Hh].
  - inversion Hops as [|? ? Ht Hops']; subst. rewrite Ht. cbn [negb].
    destruct (pop_holds _ _ _ Hh) as (s1 & -> & H1).
    cbn [ret_val post console to_text].
    destruct (IH fuel (String.append out t) s1 opener rest H1 Hops' Ho)
      as (s2 & -> & H2); [cbn in Hf; lia|].
    exists s2. cbn [ret_val post console app join fold_right].
    rewrite append_assoc. split; [reflexivity | exact H2].
Qed.

(** Closing bracket with no opener below it: the loop never stops. *)
Lemma whileNoOpener_diverges fuel : forall out s stk,
  holds s stk ->
  Forall (fun t => isOpener t = false) stk ->
  whileNoOpener fuel out s = None.
Proof.
  induction fuel as [|fuel IH]; intros out s stk Hh Hstk; [reflexivity|].
  cbn [whileNoOpener]. unfold bindP, lift. destruct stk as [|t stk].
  - destruct (noOpenerOnTop_empty _ Hh) as [-> ->].
    pose proof (bpop_empty _ Hh) as Hp.
    change (@BalancedStack.pop string) with pop in Hp. rewrite Hp.
    cbn [ret_val post console]. rewrite (IH _ s [] Hh Hstk). reflexivity.
  - rewrite (noOpenerOnTop_holds _ _ _ Hh). cbn [ret_val post console].
    inversion Hstk as [|? ? Ht Hstk']; subst. rewrite Ht. cbn [negb].
    destruct (pop_holds _ _ _ Hh) as (s1 & -> & H1).
    cbn [ret_val post console]. rewrite (IH _ s1 stk H1 Hstk'). reflexivity.
Qed.

(** Operator: the entries on top whose precedence is not lower go to
    the output; the loop stops at the first lower one or at the bottom. *)
Lemma whileNotLower_ok char ops : forall fuel out s rest,
  holds s (ops ++ rest) ->
  Forall (fun t => (precedence char <= precedence t)%Z) ops ->
  match rest with
  | [] => True
  | t :: _ => (precedence t < precedence char)%Z
  end ->
  List.length ops < fuel ->
  exists s', whileNotLower fuel char out s
               = Some (Done (String.append out (join ops)) s' []) /\
             holds s' rest.
Proof.
  induction ops as [|t ops IH]; intros fuel out s rest Hh Hops Hrest Hf;
    (destruct fuel as [|fuel]; [cbn in Hf; lia|]);
    cbn [whileNotLower]; unfold bindP, lift.
  - cbn [app] in Hh. exists s. cbn [join fold_right]. rewrite append_empty_r.
    split; [|exact Hh]. destruct rest as [|t rest].
    + rewrite (notLowerOnTop_empty _ _ Hh). reflexivity.
    + rewrite (notLowerOnTop_holds _ _ _ _ Hh). cbn [ret_val post console].
      destruct (Z.geb_spec (precedence t) (precedence char)); [lia|reflexivity].
  - cbn [app] in Hh. rewrite (notLowerOnTop_holds _ _ _ _ Hh).
    cbn [ret_val post console].
    inversion Hops as [|? ? Ht Hops']; subst.
    destruct (Z.geb_spec (precedence t) (precedence char)); [|lia].
    destruct (pop_holds _ _ _ Hh) as (s1 & -> & H1).
    cbn [ret_val post console to_text].
    destruct (IH fuel (String.append out t) s1 rest H1 Hops' Hrest)
      as (s2 & -> & H2); [cbn in Hf; lia|].
    exists s2. cbn [ret_val post console app join fold_right].
    rewrite append_assoc. split; [reflexivity | exact H2].
Qed.

(** End of the scan: everything left goes to the output. *)
Lemma whileNotEmpty_ok stk : forall fuel out s,
  holds s stk ->
  List.length stk < fuel ->
  exists s', whileNotEmpty fuel out s
               = Some (Done (String.append out (join stk)) s' []) /\
             holds s' [].
Proof.
  induction stk as [|t stk IH]; intros fuel out s Hh Hf;
    (destruct fuel as [|fuel]; [cbn in Hf; lia|]);
    cbn [whileNotEmpty]; unfold bindP, lift;
    pose proof (bisEmpty_holds _ _ Hh) as He;
    change (@BalancedStack.isEmpty string) with isEmpty in He; rewrite He;
    cbn [ret_val post console negb].
  - exists s. cbn [join fold_right]. rewrite append_empty_r.
    split; [reflexivity | exact Hh].
  - destruct (pop_holds _ _ _ Hh) as (s1 & -> & H1).
    cbn [ret_val post console to_text].
    destruct (IH fuel (String.append out t) s1 H1) as (s2 & -> & H2);
      [cbn in Hf; lia|].
    exists s2. cbn [ret_val post console app join fold_right].
    rewrite append_assoc. split; [reflexivity | exact H2].
Qed.
End ConverterFacts.

(** ** The converter respects the live contents; more fuel changes nothing *)

Section ConverterRuns.
Import InfixToPostfixStack.
Implicit Types (s : StackObj string) (stk : list string).
Implicit Types (out char : string).

Lemma respects_noOpenerOnTop : Respects noOpenerOnTop.
Proof.
  unfold noOpenerOnTop.
  apply respects_bind; [exact respects_peek|]. intros p1.
  destruct (strict_ne p1 "("); [|apply respects_ret].
  apply respects_bind; [exact respects_peek|]. intros p2.
  destruct (strict_ne p2 "{"); [|apply respects_ret].
  apply respects_bind; [exact respects_peek|]. intros p3. apply respects_ret.
Qed.

Lemma respects_notLowerOnTop char : Respects (notLowerOnTop char).
Proof.
  unfold notLowerOnTop.
  apply respects_bind; [exact respects_isEmpty|]. intros [|]; cbn [negb].
  - apply respects_ret.
  - apply respects_bind; [exact respects_peek|]. intros p. apply respects_ret.
Qed.

Lemma respectsP_whileNoOpener fuel : forall out,
  RespectsP (whileNoOpener fuel out).
Proof.
  induction fuel as [|fuel IH]; intros out; [intros s1 s2 _; exact I|].
  cbn [whileNoOpener].
  apply respectsP_bind; [exact (respectsP_lift _ respects_noOpenerOnTop)|].
  intros [|]; [|apply respectsP_ret].
  apply respectsP_bind; [exact (respectsP_lift _ respects_pop)|].
  intros v. apply IH.
Qed.

Lemma respectsP_whileNotLower fuel char : forall out,
  RespectsP (whileNotLower fuel char out).
Proof.
  induction fuel as [|fuel IH]; intros out; [intros s1 s2 _; exact I|].
  cbn [whileNotLower].
  apply respectsP_bind; [exact (respectsP_lift _ (respects_notLowerOnTop char))|].
  intros [|]; [|apply respectsP_ret].
  apply respectsP_bind; [exact (respectsP_lift _ respects_pop)|].
  intros v. apply IH.
Qed.

Lemma respectsP_whileNotEmpty fuel : forall out,
  RespectsP (whileNotEmpty fuel out).
Proof.
  induction fuel as [|fuel IH]; intros out; [intros s1 s2 _; exact I|].
  cbn [whileNotEmpty].
  apply respectsP_bind; [exact (respectsP_lift _ respects_isEmpty)|].
  intros [|]; cbn [negb]; [apply respectsP_ret|].
  apply respectsP_bind; [exact (respectsP_lift _ respects_pop)|].
  intros v. apply IH.
Qed.

Lemma respectsP_step fuel char out : RespectsP (step fuel char out).
Proof.
  unfold step.
  destruct ((char === "(") || (char === "{") || (char === "[")).
  { apply respectsP_bind; [exact (respectsP_lift _ (respects_push char))|].
    intros _. apply respectsP_ret. }
  destruct ((char === ")") || (char === "}") || (char === "]")).
  { apply respectsP_bind; [apply respectsP_whileNoOpener|]. intros o.
    apply respectsP_bind; [exact (respectsP_lift _ respects_pop)|].
    intros _. apply respectsP_ret. }
  destruct (isOperator char); [|apply respectsP_ret].
  apply respectsP_bind; [apply respectsP_whileNotLower|]. intros o.
  apply respectsP_bind; [exact (respectsP_lift _ (respects_push char))|].
  intros _. apply respectsP_ret.
Qed.

Lemma respectsP_forOf fuel cs : forall out, RespectsP (forOf fuel cs out).
Proof.
  induction cs as [|char rest IH]; intros out; cbn [forOf].
  - apply respectsP_ret.
  - apply respectsP_bind; [apply respectsP_step | intros o; apply IH].
Qed.

Lemma respectsP_convert fuel expression : RespectsP (convert fuel expression).
Proof.
  unfold convert.
  apply respectsP_bind; [apply respectsP_forOf | intros o].
  apply respectsP_whileNotEmpty.
Qed.

(** A run that returns leaves an object that still holds a stack. *)
Lemma respectsP_holds {A : Type} (m : Part (StackObj string) A) s stk r :
  RespectsP m -> holds s stk -> m s = Some r ->
  exists stk', holds (post r) stk'.
Proof.
  intros Hm Hh Hr. specialize (Hm s s (same_live_diag _ _ Hh)).
  rewrite Hr in Hm. destruct Hm as (_ & _ & stk' & H & _).
  exists stk'. exact H.
Qed.

Lemma extends_bindP {S A B : Type} (m m' : Part S A) (k k' : A -> Part S B)
      (x : S) :
  extends (m x) (m' x) ->
  (forall a x', extends (k a x') (k' a x')) ->
  extends (bindP m k x) (bindP m' k' x).
Proof.
  intros Hm Hk r. unfold bindP.
  destruct (m x) as [r1|] eqn:E1; [|discriminate].
  rewrite (Hm r1 eq_refl).
  destruct (k (ret_val r1) (post r1)) as [r2|] eqn:E2; [|discriminate].
  rewrite (Hk _ _ r2 E2). trivial.
Qed.

Lemma extends_refl {R : Type} (o : option R) : extends o o.
Proof. intros r H. exact H. Qed.

Lemma whileNoOpener_mono fuel : forall fuel' out s,
  fuel <= fuel' ->
  extends (whileNoOpener fuel out s) (whileNoOpener fuel' out s).
Proof.
  induction fuel as [|fuel IH]; intros fuel' out s Hle; [intros r; discriminate|].
  destruct fuel' as [|fuel']; [lia|]. cbn [whileNoOpener].
  apply extends_bindP; [apply extends_refl|]. intros [|] s1; [|apply extends_refl].
  apply extends_bindP; [apply extends_refl|]. intros v s2. apply IH. lia.
Qed.

Lemma whileNotLower_mono char fuel : forall fuel' out s,
  fuel <= fuel' ->
  extends (whileNotLower fuel char out s) (whileNotLower fuel' char out s).
Proof.
  induction fuel as [|fuel IH]; intros fuel' out s Hle; [intros r; discriminate|].
  destruct fuel' as [|fuel']; [lia|]. cbn [whileNotLower].
  apply extends_bindP; [apply extends_refl|]. intros [|] s1; [|apply extends_refl].
  apply extends_bindP; [apply extends_refl|]. intros v s2. apply IH. lia.
Qed.

Lemma whileNotEmpty_mono fuel : forall fuel' out s,
  fuel <= fuel' ->
  extends (whileNotEmpty fuel out s) (whileNotEmpty fuel' out s).
Proof.
  induction fuel as [|fuel IH]; intros fuel' out s Hle; [intros r; discriminate|].
  destruct fuel' as [|fuel']; [lia|]. cbn [whileNotEmpty].
  apply extends_bindP; [apply extends_refl|].
  intros [|] s1; cbn [negb]; [apply extends_refl|].
  apply extends_bindP; [apply extends_refl|]. intros v s2. apply IH. lia.
Qed.

Lemma step_mono fuel fuel' char out s :
  fuel <= fuel' -> extends (step fuel char out s) (step fuel' char out s).
Proof.
  intros Hle. unfold step.
  destruct ((char === "(") || (char === "{") || (char === "["));
    [apply extends_refl|].
  destruct ((char === ")") || (char === "}") || (char === "]")).
  { apply extends_bindP; [apply whileNoOpener_mono; exact Hle|].
    intros; apply extends_refl. }
  destruct (isOperator char); [|apply extends_refl].
  apply extends_bindP; [apply whileNotLower_mono; exact Hle|].
  intros; apply extends_refl.
Qed.

Lemma forOf_mono fuel fuel' cs : forall out s,
  fuel <= fuel' -> extends (forOf fuel cs out s) (forOf fuel' cs out s).
Proof.
  induction cs as [|char rest IH]; intros out s Hle; cbn [forOf].
  - apply extends_refl.
  - apply extends_bindP; [apply step_mono; exact Hle|].
    intros o s'. apply IH. exact Hle.
Qed.

(** More fuel never changes what a call returns. *)
Lemma convert_mono fuel fuel' expression s :
  fuel <= fuel' ->
  extends (convert fuel expression s) (convert fuel' expression s).
Proof.
  intros Hle. unfold convert.
  apply extends_bindP; [apply forOf_mono; exact Hle|].
  intros o s'. apply whileNotEmpty_mono. exact Hle.
Qed.

Lemma convert_fuel_irrelevant fuel fuel' expression s r r' :
  convert fuel expression s = Some r ->
  convert fuel' expression s = Some r' ->
  r = r'.
Proof.
  intros H H'.
  destruct (Nat.le_ge_cases fuel fuel') as [Hle|Hle].
  - apply (convert_mono _ _ _ _ Hle) in H. congruence.
  - apply (convert_mono _ _ _ _ Hle) in H'. congruence.
Qed.

(** A call of [convert] that returns leaves the stack empty. *)
Lemma convert_leaves_empty fuel expression s stk r :
  holds s stk ->
  convert fuel expression s = Some r ->
  holds (post r) [].
Proof.
  intros Hh. unfold convert, bindP.
  destruct (forOf fuel (chars expression) "" s) as [r1|] eqn:E1; [|discriminate].
  destruct (respectsP_holds _ _ _ _ (respectsP_forOf fuel _ "") Hh E1)
    as (stk1 & H1).
  destruct (whileNotEmpty fuel (ret_val r1) (post r1)) as [r2|] eqn:E2;
    [|discriminate].
  intros [= <-]. cbn [post].
  destruct (whileNotEmpty_ok stk1 (Nat.max fuel (S (List.length stk1)))
              (ret_val r1) (post r1) H1) as (s' & E & Hs'); [lia|].
  apply (whileNotEmpty_mono fuel (Nat.max fuel (S (List.length stk1)))) in E2;
    [|lia].
  rewrite E in E2. injection E2 as <-. exact Hs'.
Qed.
End ConverterRuns.

(** ** Claims about [isBalanced] *)

(** C4. Started on an empty stack, [isBalanced] returns what the
    specification's left-to-right check returns: openers pushed, [false]
    at once on a closer that meets an empty stack or a popped opener of
    another kind, other characters ignored, [true] at the end iff the
    stack is empty; and the four reference results hold. *)
Theorem isBalanced_from_empty_stack :
  (forall (expression : string) (s : StackObj string),
     topLevel s = (-1)%Z ->
     ret_val (BalancedStack.isBalanced expression s) = is_balanced expression) /\
  ret_val (BalancedStack.isBalanced "()" BalancedStack.balancedStack) = true /\
  ret_val (BalancedStack.isBalanced "({[]})" BalancedStack.balancedStack) = true /\
  ret_val (BalancedStack.isBalanced "([)]" BalancedStack.balancedStack) = false /\
  ret_val (BalancedStack.isBalanced "(()" BalancedStack.balancedStack) = false.
Proof.
  split; [|repeat split; reflexivity].
  intros expression s Htop.
  apply isBalanced_refines. apply holds_nil. exact Htop.
Qed.

Lemma isBalanced_from_empty_stack_witness :
  ret_val (BalancedStack.isBalanced "{[()]}(" BalancedStack.balancedStack)
  = is_balanced "{[()]}(".
Proof.
  apply (proj1 isBalanced_from_empty_stack). reflexivity.
Defined.

(** ** Claims about the shared instances *)

Section SharedInstances.
Import InfixToPostfixStack.

Lemma balanced_calls_leave_empty previous : forall s,
  holds s [] ->
  Forall (eq true) (ret_val (BalancedStack.calls previous s)) ->
  holds (post (BalancedStack.calls previous s)) [].
Proof.
  induction previous as [|e rest IH]; intros s Hs Hall; [exact Hs|].
  cbn [BalancedStack.calls] in *. unfold bind, ret in *.
  cbn [ret_val post] in *.
  inversion Hall as [|? ? He Hrest]; subst.
  apply IH; [|exact Hrest].
  apply (scan_true_leaves_empty _ _ [] Hs). symmetry. exact He.
Qed.

Lemma convert_calls_leave_empty fuel previous : forall s r,
  holds s [] ->
  calls fuel previous s = Some r ->
  holds (post r) [].
Proof.
  induction previous as [|e rest IH]; intros s r Hs.
  - cbn. intros [= <-]. exact Hs.
  - cbn [calls]. unfold bindP, retP.
    destruct (convert fuel e s) as [r1|] eqn:E1; [|discriminate].
    destruct (calls fuel rest (post r1)) as [r2|] eqn:E2; [|discriminate].
    cbn [ret_val post console]. intros [= <-]. cbn [post].
    apply (IH _ _ (convert_leaves_empty _ _ _ _ _ Hs E1) E2).
Qed.

Lemma agreeP_returned {A : Type} (o1 o2 : option (Res (StackObj string) A)) :
  agreeP o1 o2 -> returned o1 = returned o2.
Proof.
  destruct o1 as [r1|], o2 as [r2|]; cbn; try contradiction; [|reflexivity].
  intros (Hr & _). congruence.
Qed.

(** What calls on the shared instances do depend on.  Both algorithms
    work on a module-level stack that all calls share, and a call is
    deterministic in its argument and the live contents of that stack:
    from objects with the same live contents, [isBalanced] and
    [convert] return the same value, write the same console lines and
    leave the same live contents.  After calls of [isBalanced] that all
    returned [true], and after calls of [convert] that returned, the
    shared stack is empty again and a call returns what it returns on
    the new instance. *)
Theorem calls_depend_on_shared_stack :
  (forall expression s1 s2, same_live s1 s2 ->
     agree (BalancedStack.isBalanced expression s1)
           (BalancedStack.isBalanced expression s2)) /\
  (forall previous expression,
     let before := BalancedStack.calls previous BalancedStack.balancedStack in
     Forall (eq true) (ret_val before) ->
     ret_val (BalancedStack.isBalanced expression (post before))
     = ret_val (BalancedStack.isBalanced expression BalancedStack.balancedStack)) /\
  (forall fuel expression s1 s2, same_live s1 s2 ->
     agreeP (convert fuel expression s1) (convert fuel expression s2)) /\
  (forall fuel previous expression before,
     calls fuel previous infixToPostfix = Some before ->
     returned (convert fuel expression (post before))
     = returned (convert fuel expression infixToPostfix)).
Proof.
  split; [|split; [|split]].
  - intros expression. exact (respects_scan (chars expression)).
  - intros previous expression before Hall. subst before.
    assert (Hnew : holds BalancedStack.balancedStack []) by (apply holds_nil; reflexivity).
    pose proof (balanced_calls_leave_empty previous _ Hnew Hall) as Hafter.
    apply (respects_scan (chars expression)).
    apply same_live_empty; assumption.
  - intros fuel expression. exact (respectsP_convert fuel expression).
  - intros fuel previous expression before Hprev.
    assert (Hnew : holds infixToPostfix []) by (apply holds_nil; reflexivity).
    pose proof (convert_calls_leave_empty _ _ _ _ Hnew Hprev) as Hafter.
    apply agreeP_returned. apply respectsP_convert.
    apply same_live_empty; assumption.
Qed.
End SharedInstances.

Lemma calls_depend_on_shared_stack_witness :
  ret_val (BalancedStack.isBalanced "([)]"
             (post (BalancedStack.calls ["()"; "({[]})"] BalancedStack.balancedStack)))
  = ret_val (BalancedStack.isBalanced "([)]" BalancedStack.balancedStack).
Proof.
  apply (proj1 (proj2 calls_depend_on_shared_stack) ["()"; "({[]})"] "([)]").
  repeat constructor.
Defined.

(** C3. Two calls of [isBalanced] with the same input do not always
    return the same output: a call that returns [false] leaves its
    openers on the module-level stack.  [isBalanced("(")] returns
    [false] and leaves its opener behind, and the call
    [isBalanced("()")] that follows returns [false], where the same call
    on the new instance returns [true].  The demonstration at the end of
    the file ends with [isBalanced("([)]")], which leaves a "(" behind:
    after it [isBalanced("()")] returns [false] and [isBalanced(")")]
    returns [true]. *)
Lemma isBalanced_depends_on_previous_call :
  ret_val (BalancedStack.isBalanced "()" BalancedStack.balancedStack) = true /\
  ret_val (BalancedStack.calls ["("; "()"] BalancedStack.balancedStack)
  = [false; false] /\
  ret_val (BalancedStack.isBalanced "()"
             (post (BalancedStack.isBalanced "(" BalancedStack.balancedStack)))
  <> ret_val (BalancedStack.isBalanced "()" BalancedStack.balancedStack) /\
  ret_val (BalancedStack.calls ["()"; "({[]})"; "([)]"; "()"; ")"; "()"]
             BalancedStack.balancedStack)
  = [true; true; false; false; true; true] /\
  (exists s, post (BalancedStack.calls ["()"; "({[]})"; "([)]"]
                     BalancedStack.balancedStack) = s /\
             holds s ["("]).
Proof.
  repeat split; try reflexivity; try discriminate.
  eexists. split; [reflexivity|]. split; reflexivity.
Qed.

(** ** Claims about [convert] *)

Section ConverterClaims.
Import InfixToPostfixStack.
Implicit Types (s : StackObj string) (stk ops rest : list string).
Implicit Types (out char : string).

Lemma isOperator_spec char :
  isOperator char = true <->
  char = "+" \/ char = "-" \/ char = "*" \/ char = "/".
Proof.
  unfold isOperator.
  destruct (String.eqb_spec char "+"), (String.eqb_spec char "-"),
           (String.eqb_spec char "*"), (String.eqb_spec char "/");
    cbn; split; intros H; auto; try discriminate.
  destruct H as [?|[?|[?|?]]]; contradiction.
Qed.

Lemma isCloser_spec char :
  isCloser char = true <-> char = ")" \/ char = "}" \/ char = "]".
Proof.
  unfold isCloser.
  destruct (String.eqb_spec char ")"), (String.eqb_spec char "}"),
           (String.eqb_spec char "]");
    cbn; split; intros H; auto; try discriminate.
  destruct H as [?|[?|?]]; contradiction.
Qed.

(** The body of the [for ... of] loop at a closing bracket. *)
Lemma step_closer fuel char out s :
  isCloser char = true ->
  step fuel char out s =
    (let? o := whileNoOpener fuel out in
     let? _ := lift pop in
     retP o) s.
Proof.
  intros H. apply isCloser_spec in H. destruct H as [-> | [-> | ->]]; reflexivity.
Qed.

(** The body of the [for ... of] loop at an operator. *)
Lemma step_operator fuel char out s :
  isOperator char = true ->
  step fuel char out s =
    (let? o := whileNotLower fuel char out in
     let? _ := lift (push char) in
     retP o) s.
Proof.
  intros H. apply isOperator_spec in H.
  destruct H as [-> | [-> | [-> | ->]]]; reflexivity.
Qed.

(** A closing bracket with no opener below it: the body never ends. *)
Lemma step_closer_diverges fuel char out s stk :
  isCloser char = true ->
  holds s stk ->
  Forall (fun t => isOpener t = false) stk ->
  step fuel char out s = None.
Proof.
  intros Hc Hh Hstk. rewrite (step_closer _ _ _ _ Hc). unfold bindP.
  rewrite (whileNoOpener_diverges fuel out s stk Hh Hstk). reflexivity.
Qed.

Lemma convert_at_least fuel0 fuel expression s r out :
  convert fuel0 expression s = Some r ->
  fuel0 <= fuel ->
  ret_val r = out ->
  returned (convert fuel expression s) = Some out.
Proof.
  intros H Hle <-. rewrite (convert_mono _ _ _ _ Hle r H). reflexivity.
Qed.

(** C2. On the input ")" the converter's loop for a closing bracket
    meets an empty stack, whose [peek] is [undefined] and so never one
    of the openers: the loop runs on whatever the number of iterations
    allowed, and [convert] does not return. *)
Theorem convert_unmatched_closer_never_returns :
  forall fuel, convert fuel ")" infixToPostfix = None.
Proof.
  intros fuel. unfold convert, bindP. cbn [chars forOf]. unfold bindP.
  rewrite (step_closer_diverges fuel ")" "" infixToPostfix []);
    [reflexivity | reflexivity | apply holds_nil; reflexivity | constructor].
Qed.

(** C5. The precedence function maps [*] and [/] to 2, [+] and [-] to
    1 and every other string to 0; [isOperator] accepts those four
    characters only.  When an operator is scanned, the entries on top
    of the stack whose precedence is greater than or equal to its own
    are popped to the output, top first, up to the first entry of
    lower precedence or the bottom, and then the operator is pushed;
    so an operator of equal precedence already on the stack is emitted
    before the new one. *)
Theorem operator_pops_not_lower_precedence :
  (precedence "*" = 2%Z /\ precedence "/" = 2%Z /\
   precedence "+" = 1%Z /\ precedence "-" = 1%Z /\
   forall char, isOperator char = false -> precedence char = 0%Z) /\
  (forall char, isOperator char = true <->
                char = "+" \/ char = "-" \/ char = "*" \/ char = "/") /\
  (forall op ops rest fuel out s,
     isOperator op = true ->
     holds s (ops ++ rest) ->
     Forall (fun t => (precedence t >= precedence op)%Z) ops ->
     match rest with
     | [] => True
     | t :: _ => (precedence t < precedence op)%Z
     end ->
     List.length ops < fuel ->
     exists s', step fuel op out s
                  = Some (Done (String.append out (join ops)) s' []) /\
                holds s' (op :: rest)) /\
  (forall fuel, 2 <= fuel ->
     returned (convert fuel "A-B+C" infixToPostfix) = Some "AB-C+" /\
     returned (convert fuel "A/B*C" infixToPostfix) = Some "AB/C*").
Proof.
  split; [|split; [exact isOperator_spec|split]].
  - repeat split; try reflexivity.
    intros char. unfold isOperator, precedence.
    destruct (char === "+"), (char === "-"), (char === "*"), (char === "/");
      cbn; intros H; try discriminate; reflexivity.
  - intros op ops rest fuel out s Hop Hh Hops Hrest Hf.
    rewrite (step_operator _ _ _ _ Hop). unfold bindP.
    destruct (whileNotLower_ok op ops fuel out s rest Hh) as (s1 & -> & H1);
      try assumption.
    { eapply Forall_impl; [exact Hops|]. cbn. intros; lia. }
    unfold lift, retP. cbn [ret_val post console app].
    exists (post (push op s1)). split; [reflexivity|].
    apply (bpush_holds s1 rest op H1).
  - intros fuel Hf. split;
      (eapply (convert_at_least 2); [vm_compute; reflexivity | exact Hf | reflexivity]).
Qed.

(** C6, amended. From the new converter, [convert] returns "ABC*+"
    for "A+B*C", "ABC+*D/" for "A*(B+C)/D" and "ABC*DE/-F/+" for
    "A+((B*C)-(D/E))/F", with any allowance of three or more
    iterations for its loops. *)
Theorem convert_reference_results fuel :
  3 <= fuel ->
  returned (convert fuel "A+B*C" infixToPostfix) = Some "ABC*+" /\
  returned (convert fuel "A*(B+C)/D" infixToPostfix) = Some "ABC+*D/" /\
  returned (convert fuel "A+((B*C)-(D/E))/F" infixToPostfix)
  = Some "ABC*DE/-F/+".
Proof.
  intros Hf. split; [|split];
    (eapply (convert_at_least 3); [vm_compute; reflexivity | exact Hf | reflexivity]).
Qed.

(** C10. A closing bracket of any kind is matched against an opening
    bracket of any kind: the entries above the nearest opener are
    popped to the output, top first, and that opener is discarded
    without a comparison of kinds; on "[A+B)" the converter returns
    "AB+" and writes nothing on the console. *)
Theorem closer_matches_any_opener :
  (forall closer opener ops rest fuel out s,
     isCloser closer = true ->
     isOpener opener = true ->
     Forall (fun t => isOpener t = false) ops ->
     holds s (ops ++ opener :: rest) ->
     List.length ops < fuel ->
     exists s', step fuel closer out s
                  = Some (Done (String.append out (join ops)) s' []) /\
                holds s' rest) /\
  (forall fuel, 2 <= fuel ->
     exists s', convert fuel "[A+B)" infixToPostfix = Some (Done "AB+" s' []) /\
                holds s' []).
Proof.
  split.
  - intros closer opener ops rest fuel out s Hc Ho Hops Hh Hf.
    rewrite (step_closer _ _ _ _ Hc). unfold bindP.
    destruct (whileNoOpener_ok ops fuel out s opener rest Hh Hops Ho Hf)
      as (s1 & -> & H1).
    cbn [ret_val post console]. unfold lift, retP.
    destruct (pop_holds _ _ _ H1) as (s2 & -> & H2).
    cbn [ret_val post console app]. exists s2. split; [reflexivity | exact H2].
  - intros fuel Hf. eexists. split.
    + apply (convert_mono 2 fuel _ _ Hf). vm_compute. reflexivity.
    + split; reflexivity.
Qed.
End ConverterClaims.

Lemma operator_pops_not_lower_precedence_witness :
  exists s', InfixToPostfixStack.step 3 "+" "AB"
               (post (InfixToPostfixStack.push "-" InfixToPostfixStack.new))
             = Some (Done "AB-" s' []) /\
             holds s' ["+"].
Proof.
  apply (proj1 (proj2 (proj2 operator_pops_not_lower_precedence))
           "+" ["-"] [] 3 "AB").
  - reflexivity.
  - split; reflexivity.
  - repeat constructor. vm_compute. discriminate.
  - exact I.
  - cbn. lia.
Defined.

Lemma convert_reference_results_witness :
  InfixToPostfixStack.returned
    (InfixToPostfixStack.convert 5 "A+B*C" InfixToPostfixStack.infixToPostfix)
  = Some "ABC*+".
Proof.
  apply (convert_reference_results 5). lia.
Defined.

Lemma closer_matches_any_opener_witness :
  exists s', InfixToPostfixStack.step 3 ")" "AB"
               (post (InfixToPostfixStack.push "+"
                  (post (InfixToPostfixStack.push "[" InfixToPostfixStack.new))))
             = Some (Done "AB+" s' []) /\
             holds s' [].
Proof.
  apply (proj1 closer_matches_any_opener ")" "[" ["+"] [] 3 "AB").
  - reflexivity.
  - reflexivity.
  - repeat constructor.
  - split; reflexivity.
  - cbn. lia.
Defined.

(** C6 as stated fails on its third equality: whatever the number of
    iterations allowed, [convert] does not return "ABC*DE/-+F/" for
    "A+((B*C)-(D/E))/F"; the [+] stays on the stack under the [/] and
    comes out last. *)
Lemma convert_third_reference_differs :
  ~ exists fuel r,
      InfixToPostfixStack.convert fuel "A+((B*C)-(D/E))/F"
        InfixToPostfixStack.infixToPostfix = Some r /\
      ret_val r = "ABC*DE/-+F/".
Proof.
  intros (fuel & r & Hrun & Hout).
  assert (E : exists r3,
             InfixToPostfixStack.convert 3 "A+((B*C)-(D/E))/F"
               InfixToPostfixStack.infixToPostfix = Some r3 /\
             ret_val r3 = "ABC*DE/-F/+").
  { eexists. split; [vm_compute; reflexivity | reflexivity]. }
  destruct E as (r3 & E & Hr3).
  pose proof (convert_fuel_irrelevant _ _ _ _ _ _ Hrun E) as ->.
  rewrite Hr3 in Hout. discriminate Hout.
Qed.


(** ** More on the bounded stack *)

Section StackMore.
Context {T : Type}.
Implicit Types (s : StackObj T) (stk hist : list T) (v : T).

(** [peek] looks at the top without touching the object: it returns
    what [pop] would return and reports what [pop] would report. *)
Theorem peek_is_pop_without_change s stk hist :
  Stack.Repr s stk hist ->
  post (Stack.peek s) = s /\
  ret_val (Stack.peek s) = head stk /\
  ret_val (Stack.peek s) = ret_val (Stack.pop s) /\
  console (Stack.peek s) = console (Stack.pop s) /\
  (console (Stack.peek s) = [] <-> stk <> []).
Proof.
  intros HR. destruct stk as [|v stk].
  - assert (H0 : length s = 0%Z) by (destruct HR as (_ & Hl & _); exact Hl).
    rewrite (pop_empty _ _ _ HR H0).
    pose proof (Repr_top _ _ _ HR) as Ht. unfold Stack.peek.
    destruct (Z.ltb_spec (topLevel s) 0) as [_|?]; [|lia].
    cbn. repeat split; try reflexivity; try discriminate. intros H; congruence.
  - rewrite (peek_top _ _ _ _ HR).
    destruct (pop_ok _ _ _ _ HR) as (s' & -> & _).
    cbn. repeat split; try reflexivity. discriminate.
Qed.

(** A push below capacity followed by a pop gives the pushed value
    back and leaves the elements as they were; the value is now the
    last entry of the history. *)
Theorem push_pop_round_trip s stk hist v :
  Stack.Repr s stk hist ->
  (length s < MAX_SIZE)%Z ->
  let pushed := Stack.push v s in
  let popped := Stack.pop (post pushed) in
  ret_val popped = Some v /\
  console pushed ++ console popped = [] /\
  Stack.Repr (post popped) stk (hist ++ [v]).
Proof.
  intros HR Hlt pushed popped. subst pushed popped.
  destruct (push_ok _ _ _ v HR Hlt) as (s1 & -> & HR1). cbn [post console].
  destruct (pop_ok _ _ _ _ HR1) as (s2 & -> & HR2 & _).
  repeat split; try reflexivity; apply HR2.
Qed.

(** [undo] with an empty history returns [undefined], writes nothing
    and leaves the whole object as it was. *)
Theorem undo_empty_history s stk :
  Stack.Repr s stk [] ->
  Stack.undo s = Done None s [].
Proof.
  intros (_ & _ & Hhist & _). unfold Stack.undo. rewrite Hhist. cbn.
  cbn in Hhist. rewrite <- Hhist. destruct s; reflexivity.
Qed.

(** Whatever calls are made on a new stack, the count stays between 0
    and [MAX_SIZE], [topLevel] is the count minus one, the cells up to
    [topLevel] and the history entries are all defined. *)
Theorem stack_invariant (cs : list (@Stack.call T)) :
  let s := @Stack.performAll T cs Stack.new in
  (0 <= length s <= MAX_SIZE)%Z /\
  topLevel s = (length s - 1)%Z /\
  (length s <= Z.of_nat (List.length (elements s)))%Z /\
  (forall i, (0 <= i < length s)%Z -> JsArray.get (elements s) i <> None) /\
  Forall (fun entry => entry <> None) (_poppedHistory s).
Proof.
  cbn zeta. destruct (performAll_Repr cs) as (stk & hist & HR).
  pose proof (Repr_top _ _ _ HR) as Ht.
  destruct HR as (Hh & Hl & Hhist & Hcap).
  pose proof (holds_length _ _ Hh) as Hlen.
  repeat split; try lia.
  - intros i Hi. destruct Hh as [_ He]. unfold JsArray.get.
    destruct (Z.ltb_spec i 0) as [?|_]; [lia|].
    assert (Hlt : Z.to_nat i < List.length stk) by lia.
    assert (Hlk : take (List.length stk) (elements (Stack.performAll cs Stack.new))
                    !! Z.to_nat i
                  = (Some <$> reverse stk) !! Z.to_nat i) by (rewrite He; reflexivity).
    rewrite lookup_take_lt in Hlk by exact Hlt. rewrite Hlk, list_lookup_fmap.
    destruct (lookup_lt_is_Some_2 (reverse stk) (Z.to_nat i)) as [x ->].
    { rewrite length_reverse. exact Hlt. }
    cbn. discriminate.
  - rewrite Hhist. apply Forall_fmap, Forall_forall. intros x _. cbn. discriminate.
Qed.

(** Pushes beyond the capacity are dropped: from a stack with [room]
    free places, a run of pushes stores the first [room] values and
    writes one "stack overflow" line for each of the others. *)
Theorem pushes_saturate (values : list T) : forall s stk hist,
  Stack.Repr s stk hist ->
  let room := Z.to_nat (MAX_SIZE - length s) in
  let pushed := Stack.pushes values s in
  Stack.Repr (post pushed) (reverse (take room values) ++ stk) hist /\
  console pushed = replicate (List.length values - room) "stack overflow".
Proof.
  induction values as [|v values IH]; intros s stk hist HR; cbn zeta.
  - rewrite take_nil. cbn. split; [exact HR | reflexivity].
  - cbn [Stack.pushes]. unfold bind.
    destruct (Z.eq_dec (length s) MAX_SIZE) as [Hfull|Hne].
    + rewrite (push_full _ _ _ v HR Hfull). cbn [post ret_val console].
      specialize (IH s stk hist HR). cbn zeta in IH.
      replace (Z.to_nat (MAX_SIZE - length s)) with 0 in * by lia.
      rewrite take_0 in *. rewrite Nat.sub_0_r in *. cbn [List.length].
      destruct IH as [IH1 IH2]. rewrite IH2. split; [exact IH1 | reflexivity].
    + assert (Hlt : (length s < MAX_SIZE)%Z).
      { destruct HR as (_ & Hl & _ & Hcap). lia. }
      destruct (push_ok _ _ _ v HR Hlt) as (s1 & -> & HR1).
      cbn [post ret_val console app].
      specialize (IH s1 (v :: stk) hist HR1). cbn zeta in IH.
      assert (Hl1 : length s1 = (length s + 1)%Z).
      { destruct HR as (_ & Hl & _), HR1 as (_ & Hl1 & _).
        cbn [List.length] in Hl1. lia. }
      replace (Z.to_nat (MAX_SIZE - length s))
        with (S (Z.to_nat (MAX_SIZE - length s1))) by lia.
      cbn [take List.length]. rewrite reverse_cons, <- app_assoc.
      replace (S (List.length values) - S (Z.to_nat (MAX_SIZE - length s1)))
        with (List.length values - Z.to_nat (MAX_SIZE - length s1)) by lia.
      exact IH.
Qed.

(** Pops beyond the bottom return [undefined]: a run of [n] pops
    returns the top [n] values, top first, then [undefined] and one
    "stack underflow" line for each pop that found the stack empty. *)
Theorem pops_saturate (n : nat) : forall s stk hist,
  Stack.Repr s stk hist ->
  let popped := Stack.pops n s in
  ret_val popped
    = (Some <$> take n stk) ++ replicate (n - List.length stk) None /\
  console popped = replicate (n - List.length stk) "stack underflow" /\
  Stack.Repr (post popped) (drop n stk) (hist ++ take n stk).
Proof.
  induction n as [|n IH]; intros s stk hist HR; cbn zeta.
  - cbn. rewrite !app_nil_r. repeat split; try reflexivity; apply HR.
  - cbn [Stack.pops]. unfold bind, ret. destruct stk as [|v stk].
    + assert (H0 : length s = 0%Z) by (destruct HR as (_ & Hl & _); exact Hl).
      rewrite (pop_empty _ _ _ HR H0). cbn [post ret_val console].
      destruct (IH s [] hist HR) as (IH1 & IH2 & IH3).
      rewrite take_nil, drop_nil in *. cbn [List.length fmap list_fmap app] in *.
      rewrite Nat.sub_0_r in *. rewrite IH1, IH2, app_nil_r.
      repeat split; try reflexivity; apply IH3.
    + destruct (pop_ok _ _ _ _ HR) as (s1 & -> & HR1 & _).
      cbn [post ret_val console app].
      destruct (IH s1 stk _ HR1) as (IH1 & IH2 & IH3).
      rewrite IH1, IH2, app_nil_r. cbn [take drop List.length fmap list_fmap].
      rewrite <- app_assoc in IH3.
      repeat split; try reflexivity; apply IH3.
Qed.
End StackMore.

(** ** More on the unbounded stacks and [isBalanced] *)

Section UnboundedMore.
Implicit Types (s : StackObj string) (ks : list BracketKind).

(** [undo] of the unbounded classes restores at any height: with a
    defined value last in the history it takes that entry off, pushes
    the value back on top and returns it, and writes nothing. *)
Theorem unbounded_undo_restores {T : Type} (u : StackObj T) (stk : list T)
        (h : list (option T)) (v : T) :
  holds u stk ->
  _poppedHistory u = h ++ [Some v] ->
  exists u', BalancedStack.undo u = Done (Some v) u' [] /\
             holds u' (v :: stk) /\
             _poppedHistory u' = h /\
             length u' = (length u + 1)%Z.
Proof.
  intros Hh Hhist. unfold BalancedStack.undo.
  rewrite Hhist, array_pop_snoc. unfold bind, ret. cbn [ret_val post console app].
  eexists. split; [reflexivity|]. repeat split.
  - destruct Hh as [Ht _]. cbn. lia.
  - destruct u as [e t l hh]. cbn [elements topLevel length _poppedHistory] in *.
    apply (holds_up e t l h (l + 1)%Z h v stk Hh).
Qed.

Lemma scan_console cs : forall s stk,
  holds s stk -> console (BalancedStack.scan cs s) = [].
Proof.
  induction cs as [|char rest IH]; intros s stk Hh.
  - cbn [BalancedStack.scan]. rewrite (bisEmpty_holds _ _ Hh). reflexivity.
  - cbn [BalancedStack.scan].
    destruct ((char === "(") || (char === "{") || (char === "[")).
    { unfold bind. cbn [console post ret_val app].
      apply (IH _ (char :: stk)). apply bpush_holds. exact Hh. }
    destruct ((char === ")") || (char === "}") || (char === "]"));
      [|apply (IH _ stk Hh)].
    unfold bind. rewrite (bisEmpty_holds _ _ Hh). cbn [ret_val post console app].
    destruct stk as [|v stk]; [reflexivity|].
    destruct (bpop_holds _ _ _ Hh) as (_ & -> & Hp). cbn [app].
    match goal with |- context [if ?c then ret false else _] => destruct c end;
      [reflexivity|].
    apply (IH _ stk Hp).
Qed.

(** [isBalanced] tests [isEmpty] before it pops: whatever the
    expression and whatever the shared stack holds, it writes nothing
    on the console. *)
Theorem isBalanced_never_underflows (expression : string) s stk :
  holds s stk ->
  console (BalancedStack.isBalanced expression s) = [].
Proof. intros Hh. exact (scan_console (chars expression) s stk Hh). Qed.

Lemma classify_openGlyph k : classify (openGlyph k) = Open k.
Proof. destruct k; reflexivity. Qed.

Lemma classify_closeGlyph k : classify (closeGlyph k) = Close k.
Proof. destruct k; reflexivity. Qed.

Lemma sameKind_refl k : sameKind k k = true.
Proof. destruct k; reflexivity. Qed.

Lemma sameKind_eq k1 k2 : sameKind k1 k2 = true -> k1 = k2.
Proof. destruct k1, k2; cbn; congruence. Qed.

Lemma classify_Open_inv c k : classify c = Open k -> c = openGlyph k.
Proof.
  unfold classify. case_char c; cbn; intros [= <-] || discriminate; reflexivity.
Qed.

Lemma classify_Close_inv c k : classify c = Close k -> c = closeGlyph k.
Proof.
  unfold classify. case_char c; cbn; intros [= <-] || discriminate; reflexivity.
Qed.

(** A well-nested stretch of characters leaves the check where it was. *)
Lemma is_balanced_from_nested w :
  nested w ->
  forall ks rest, is_balanced_from ks (w ++ rest) = is_balanced_from ks rest.
Proof.
  induction 1 as [|c w Hc _ IH|k w1 w2 _ IH1 _ IH2]; intros ks rest.
  - reflexivity.
  - cbn [app is_balanced_from]. rewrite Hc. apply IH.
  - cbn [app is_balanced_from]. rewrite classify_openGlyph.
    rewrite <- app_assoc. rewrite IH1.
    cbn [app is_balanced_from]. rewrite classify_closeGlyph, sameKind_refl.
    apply IH2.
Qed.

Lemma closes_other c ks cs :
  classify c = Other -> closes ks cs -> closes ks (c :: cs).
Proof.
  intros Hc H. destruct ks as [|k ks]; cbn [closes] in *.
  - apply nested_other; assumption.
  - destruct H as (w1 & w2 & -> & H1 & H2).
    exists (c :: w1), w2. repeat split; [|exact H2].
    apply nested_other; assumption.
Qed.

Lemma closes_pair k ks w1 w2 :
  nested w1 -> closes ks w2 ->
  closes ks (openGlyph k :: w1 ++ closeGlyph k :: w2).
Proof.
  intros H1 H2. destruct ks as [|k' ks]; cbn [closes] in *.
  - apply nested_pair; assumption.
  - destruct H2 as (v1 & v2 & -> & Hv1 & Hv2).
    exists (openGlyph k :: w1 ++ closeGlyph k :: v1), v2. repeat split.
    + cbn [app]. rewrite <- !app_assoc. reflexivity.
    + apply nested_pair; assumption.
    + exact Hv2.
Qed.

Lemma closes_balanced ks : forall cs,
  closes ks cs -> is_balanced_from ks cs = true.
Proof.
  induction ks as [|k ks IH]; intros cs H; cbn [closes] in H.
  - rewrite <- (app_nil_r cs). rewrite (is_balanced_from_nested _ H). reflexivity.
  - destruct H as (w1 & w2 & -> & H1 & H2).
    rewrite (is_balanced_from_nested _ H1).
    cbn [is_balanced_from]. rewrite classify_closeGlyph, sameKind_refl.
    apply IH. exact H2.
Qed.

Lemma balanced_closes cs : forall ks,
  is_balanced_from ks cs = true -> closes ks cs.
Proof.
  induction cs as [|c rest IH]; intros ks; cbn [is_balanced_from].
  - destruct ks as [|k ks]; [intros _; constructor | discriminate].
  - destruct (classify c) as [k|k|] eqn:Hc.
    + intros H. apply IH in H. cbn [closes] in H.
      destruct H as (w1 & w2 & -> & H1 & H2).
      rewrite (classify_Open_inv _ _ Hc). apply closes_pair; assumption.
    + destruct ks as [|k' ks]; [discriminate|].
      destruct (sameKind k' k) eqn:Hk; [|discriminate].
      apply sameKind_eq in Hk. subst k'. intros H. apply IH in H.
      cbn [closes]. exists [], rest. rewrite (classify_Close_inv _ _ Hc).
      repeat split; [constructor | exact H].
    + intros H. apply IH in H. apply closes_other; assumption.
Qed.

(** Started on an empty stack, [isBalanced] returns [true] exactly on
    the well-nested expressions: every bracket closed by one of its own
    kind, in nesting order, other characters anywhere. *)
Theorem isBalanced_true_iff_nested (expression : string) s :
  holds s [] ->
  ret_val (BalancedStack.isBalanced expression s) = true
  <-> nested (chars expression).
Proof.
  intros Hh. rewrite (isBalanced_refines expression s Hh). unfold is_balanced.
  split; [apply (balanced_closes _ []) | apply (closes_balanced [])].
Qed.
End UnboundedMore.

(** ** Whole runs of [convert] *)

Section ConverterMore.
Import InfixToPostfixStack.
Implicit Types (s : StackObj string) (stk ops rest emitted : list string).
Implicit Types (out char : string).

Lemma chars_append (a b : string) : chars (String.append a b) = chars a ++ chars b.
Proof. induction a as [|x a IH]; cbn; [reflexivity | rewrite IH; reflexivity]. Qed.

Lemma chars_oneChar (e : string) : Forall oneChar (chars e).
Proof. induction e as [|x e IH]; cbn; constructor; [reflexivity | exact IH]. Qed.

Lemma isOpener_spec char :
  isOpener char = true <-> char = "(" \/ char = "{" \/ char = "[".
Proof.
  unfold isOpener.
  destruct (String.eqb_spec char "("), (String.eqb_spec char "{"),
           (String.eqb_spec char "[");
    cbn; split; intros H; auto; try discriminate.
  destruct H as [?|[?|?]]; contradiction.
Qed.

Lemma opener_facts t :
  isOpener t = true ->
  isCloser t = false /\ isOperator t = false /\ isOperand t = false /\
  precedence t = 0%Z /\ oneChar t.
Proof.
  intros H. apply isOpener_spec in H.
  destruct H as [-> | [-> | ->]]; repeat split; reflexivity.
Qed.

Lemma operator_facts t :
  isOperator t = true ->
  isOpener t = false /\ isCloser t = false /\ isOperand t = false /\
  (1 <= precedence t)%Z /\ oneChar t.
Proof.
  intros H. apply isOperator_spec in H.
  destruct H as [-> | [-> | [-> | ->]]]; repeat split; cbn; lia || reflexivity.
Qed.

Lemma symbols_oneChar stk : symbols stk -> Forall oneChar stk.
Proof.
  intros H. eapply Forall_impl; [exact H|]. cbn. intros t [Ht|Ht].
  - apply (opener_facts _ Ht).
  - apply (operator_facts _ Ht).
Qed.

Lemma chars_join l : Forall oneChar l -> chars (join l) = l.
Proof.
  induction 1 as [|t l Ht _ IH]; [reflexivity|].
  cbn [join fold_right]. rewrite chars_append. fold (join l).
  rewrite IH, Ht. reflexivity.
Qed.

Lemma join_app l1 l2 : join (l1 ++ l2) = String.append (join l1) (join l2).
Proof.
  induction l1 as [|t l1 IH]; [reflexivity|].
  cbn [app join fold_right]. fold (join (l1 ++ l2)). fold (join l1).
  rewrite IH, append_assoc. reflexivity.
Qed.

(** Operators on the stack: not operands, not brackets. *)
Lemma operators_filters ops :
  Forall (fun t => isOperator t = true) ops ->
  List.filter isOperand ops = [] /\
  List.filter isCloser ops = [] /\
  List.filter isOpener ops = [] /\
  List.filter isOperator ops = ops.
Proof.
  induction 1 as [|t ops Ht _ (IH1 & IH2 & IH3 & IH4)]; [repeat split|].
  destruct (operator_facts _ Ht) as (Ho & Hc & Hd & _).
  cbn [List.filter]. rewrite Ho, Hc, Hd, Ht, IH4. repeat split; assumption.
Qed.

(** The stack above its nearest opener. *)
Lemma split_at_opener stk :
  symbols stk ->
  match countOpeners stk with
  | O => Forall (fun t => isOpener t = false) stk
  | S d =>
    exists ops opener rest,
      stk = ops ++ opener :: rest /\
      Forall (fun t => isOperator t = true) ops /\
      isOpener opener = true /\
      countOpeners rest = d
  end.
Proof.
  unfold countOpeners. induction 1 as [|t stk Ht Hstk IH]; [constructor|].
  cbn [List.filter]. destruct (isOpener t) eqn:Eo.
  - cbn [List.length]. exists [], t, stk. repeat split; [constructor | exact Eo].
  - destruct Ht as [Ht|Ht]; [congruence|].
    destruct (List.length (List.filter isOpener stk)) as [|d].
    + constructor; assumption.
    + destruct IH as (ops & o & rest & -> & Hops & Ho & Hd).
      exists (t :: ops), o, rest. repeat split; try assumption.
      constructor; assumption.
Qed.

(** The stack above its first entry of lower precedence. *)
Lemma split_at_lower char stk :
  exists ops rest,
    stk = ops ++ rest /\
    Forall (fun t => (precedence char <= precedence t)%Z) ops /\
    match rest with
    | [] => True
    | t :: _ => (precedence t < precedence char)%Z
    end.
Proof.
  induction stk as [|t stk (ops & rest & -> & Hops & Hrest)].
  - exists [], []. repeat split. constructor.
  - destruct (Z_lt_le_dec (precedence t) (precedence char)) as [Hlt|Hle].
    + exists [], (t :: ops ++ rest). repeat split; [constructor | exact Hlt].
    + exists (t :: ops), rest. repeat split; [|exact Hrest].
      constructor; assumption.
Qed.

Lemma symbols_app_inv l1 l2 : symbols (l1 ++ l2) -> symbols l1 /\ symbols l2.
Proof. unfold symbols. apply Forall_app. Qed.

Lemma countOpeners_app l1 l2 :
  countOpeners (l1 ++ l2) = countOpeners l1 + countOpeners l2.
Proof. unfold countOpeners. rewrite List.filter_app, length_app. reflexivity. Qed.
(** A closing bracket with no opener pending: the body never ends. *)
Lemma step_stuck fuel char out s stk :
  holds s stk -> symbols stk ->
  pendingAfter (countOpeners stk) char = None ->
  step fuel char out s = None.
Proof.
  intros Hh Hsym Hp. unfold pendingAfter in Hp.
  destruct (isOpener char); [discriminate|].
  destruct (isCloser char) eqn:Ec; [|discriminate].
  pose proof (split_at_opener stk Hsym) as Hsplit.
  destruct (countOpeners stk); [|discriminate].
  exact (step_closer_diverges fuel char out s stk Ec Hh Hsplit).
Qed.

(** One character of the scan, when it does not get stuck: what goes
    to the output and what the stack becomes. *)
Lemma step_ok fuel char out s stk d' :
  holds s stk -> symbols stk -> oneChar char ->
  List.length stk < fuel ->
  pendingAfter (countOpeners stk) char = Some d' ->
  exists s' emitted stk',
    step fuel char out s = Some (Done (String.append out (join emitted)) s' []) /\
    holds s' stk' /\ symbols stk' /\ countOpeners stk' = d' /\
    List.length stk' <= S (List.length stk) /\
    Forall oneChar emitted /\
    List.filter isOperand emitted = List.filter isOperand [char] /\
    List.filter isCloser emitted = [] /\
    Permutation (List.filter isOperator emitted ++ List.filter isOperator stk')
                (List.filter isOperator stk ++ List.filter isOperator [char]) /\
    countOpeners emitted + countOpeners stk'
      + List.length (List.filter isCloser [char])
    = countOpeners stk + countOpeners [char].
Proof.
  intros Hh Hsym Hone Hf Hp. unfold pendingAfter in Hp.
  destruct (isOpener char) eqn:Eo.
  - injection Hp as <-. destruct (opener_facts _ Eo) as (Ec & Eop & Ed & _).
    exists (post (push char s)), [], (char :: stk).
    cbn [join fold_right List.filter app List.length]. rewrite Ec, Eop, Ed.
    rewrite append_empty_r. repeat split.
    + unfold step.
      change ((char === "(") || (char === "{") || (char === "[")) with (isOpener char).
      rewrite Eo. reflexivity.
    + apply (bpush_holds s stk char Hh).
    + apply (bpush_holds s stk char Hh).
    + constructor; [left; exact Eo | exact Hsym].
    + unfold countOpeners. cbn [List.filter]. rewrite Eo. reflexivity.
    + lia.
    + constructor.
    + rewrite app_nil_r. reflexivity.
    + unfold countOpeners. cbn [List.filter List.length]. rewrite Eo. cbn. lia.
  - destruct (isCloser char) eqn:Ec.
    + pose proof (split_at_opener stk Hsym) as Hsplit.
      destruct (countOpeners stk) as [|d] eqn:Ecount; [discriminate|].
      injection Hp as <-.
      destruct Hsplit as (ops & o & rest & -> & Hops & Ho & Hd).
      destruct (operators_filters ops Hops) as (F1 & F2 & F3 & F4).
      assert (Hnon : Forall (fun t => isOpener t = false) ops).
      { eapply Forall_impl; [exact Hops|]. cbn. intros t Ht.
        apply (operator_facts _ Ht). }
      assert (Hfuel : List.length ops < fuel).
      { rewrite length_app in Hf. lia. }
      destruct (whileNoOpener_ok ops fuel out s o rest Hh Hnon Ho Hfuel)
        as (s1 & Hrun & H1).
      destruct (pop_holds _ _ _ H1) as (s2 & Hpop & H2).
      destruct (symbols_app_inv _ _ Hsym) as [Hs1 Hs2].
      destruct (opener_facts _ Ho) as (_ & Eop & _).
      assert (Eoperand : isOperand char = false).
      { unfold isOperand. rewrite Ec, Eo. reflexivity. }
      assert (Eoperator : isOperator char = false).
      { destruct (isOperator char) eqn:E; [|reflexivity].
        destruct (operator_facts _ E) as (_ & E' & _). congruence. }
      exists s2, ops, rest. repeat split.
      * rewrite (step_closer _ _ _ _ Ec). unfold bindP, lift, retP.
        rewrite Hrun. cbn [ret_val post console]. rewrite Hpop. reflexivity.
      * apply H2.
      * apply H2.
      * inversion Hs2; assumption.
      * exact Hd.
      * rewrite length_app. cbn. lia.
      * apply symbols_oneChar. exact Hs1.
      * cbn [List.filter]. rewrite Eoperand. exact F1.
      * exact F2.
      * cbn [List.filter]. rewrite Eoperator, app_nil_r, List.filter_app.
        cbn [List.filter]. rewrite Eop. reflexivity.
      * unfold countOpeners in *. cbn [List.filter]. rewrite Ec, Eo, F3.
        cbn [List.length]. rewrite Hd. lia.
    + injection Hp as <-. destruct (isOperator char) eqn:Eop.
      * destruct (split_at_lower char stk) as (ops & rest & -> & Hge & Hlow).
        destruct (symbols_app_inv _ _ Hsym) as [Hs1 Hs2].
        destruct (operator_facts _ Eop) as (_ & _ & Ed & Hprec & _).
        assert (Hops : Forall (fun t => isOperator t = true) ops).
        { apply Forall_forall. intros t Ht.
          pose proof (proj1 (Forall_forall _ _) Hge t Ht) as Hp.
          pose proof (proj1 (Forall_forall _ _) Hs1 t Ht) as [Hto|Hto];
            [|exact Hto].
          destruct (opener_facts _ Hto) as (_ & _ & _ & H0 & _). cbn in Hp. lia. }
        destruct (operators_filters ops Hops) as (F1 & F2 & F3 & F4).
        assert (Hfuel : List.length ops < fuel).
        { rewrite length_app in Hf. lia. }
        destruct (whileNotLower_ok char ops fuel out s rest Hh Hge Hlow Hfuel)
          as (s1 & Hrun & H1).
        exists (post (push char s1)), ops, (char :: rest). repeat split.
        -- rewrite (step_operator _ _ _ _ Eop). unfold bindP, lift, retP.
           rewrite Hrun. reflexivity.
        -- apply (bpush_holds s1 rest char H1).
        -- apply (bpush_holds s1 rest char H1).
        -- constructor; [right; exact Eop | exact Hs2].
        -- rewrite countOpeners_app. unfold countOpeners at 1 2.
           cbn [List.filter]. rewrite Eo, F3. reflexivity.
        -- rewrite length_app. cbn. lia.
        -- apply symbols_oneChar. exact Hs1.
        -- cbn [List.filter]. rewrite Ed. exact F1.
        -- exact F2.
        -- cbn [List.filter]. rewrite Eop, List.filter_app.
           rewrite <- app_assoc. apply Permutation_app_head.
           apply Permutation_cons_append.
        -- rewrite countOpeners_app. unfold countOpeners.
           cbn [List.filter List.length]. rewrite Ec, Eo, F3. cbn. lia.
      * assert (Ed : isOperand char = true).
        { unfold isOperand. rewrite Eo, Ec, Eop. reflexivity. }
        exists s, [char], stk.
        cbn [join fold_right List.filter app]. rewrite Ed, Ec, Eop, append_empty_r.
        repeat split; try assumption.
        -- unfold step.
           change ((char === "(") || (char === "{") || (char === "["))
             with (isOpener char).
           change ((char === ")") || (char === "}") || (char === "]"))
             with (isCloser char).
           rewrite Eo, Ec, Eop. reflexivity.
        -- apply Hh.
        -- apply Hh.
        -- lia.
        -- constructor; [exact Hone | constructor].
        -- rewrite app_nil_r. reflexivity.
        -- unfold countOpeners. cbn [List.filter List.length]. rewrite Eo. cbn. lia.
Qed.
Lemma symbols_nil : symbols [].
Proof. constructor. Qed.

Lemma symbols_filters stk :
  symbols stk ->
  List.filter isOperand stk = [] /\ List.filter isCloser stk = [].
Proof.
  induction 1 as [|t stk Ht _ (IH1 & IH2)]; [split; reflexivity|].
  cbn [List.filter]. destruct Ht as [Ht|Ht].
  - destruct (opener_facts _ Ht) as (-> & _ & -> & _). split; assumption.
  - destruct (operator_facts _ Ht) as (_ & -> & -> & _). split; assumption.
Qed.

(** The scan of [cs], when no closing bracket gets stuck. *)
Lemma forOf_ok cs : forall fuel out s stk,
  holds s stk -> symbols stk -> Forall oneChar cs ->
  List.length stk + List.length cs < fuel ->
  closable (countOpeners stk) cs = true ->
  exists r emitted stk',
    forOf fuel cs out s = Some r /\
    ret_val r = String.append out (join emitted) /\
    console r = [] /\
    holds (post r) stk' /\ symbols stk' /\
    List.length stk' <= List.length stk + List.length cs /\
    Forall oneChar emitted /\
    List.filter isOperand emitted = List.filter isOperand cs /\
    List.filter isCloser emitted = [] /\
    Permutation (List.filter isOperator emitted ++ List.filter isOperator stk')
                (List.filter isOperator stk ++ List.filter isOperator cs) /\
    countOpeners emitted + countOpeners stk'
      + List.length (List.filter isCloser cs)
    = countOpeners stk + countOpeners cs.
Proof.
  induction cs as [|c rest IH]; intros fuel out s stk Hh Hsym Hone Hf Hcl.
  - exists (Done out s []), [], stk. cbn [forOf retP ret_val console post join
      fold_right List.filter app List.length].
    rewrite append_empty_r, app_nil_r. repeat split; try assumption;
      try apply Hh; try constructor; try lia;
      try reflexivity; try (unfold countOpeners; cbn; lia).
  - cbn [closable] in Hcl.
    destruct (pendingAfter (countOpeners stk) c) as [d'|] eqn:Hp; [|discriminate].
    inversion Hone as [|? ? Hc Hrest]; subst. cbn [List.length] in Hf.
    destruct (step_ok fuel c out s stk d' Hh Hsym Hc) as
      (s1 & em1 & stk1 & Hstep & H1 & Hsym1 & Hd & Hlen1 & Hone1 & Fd1 & Fc1 & P1 & C1);
      [lia | exact Hp |].
    rewrite <- Hd in Hcl.
    destruct (IH fuel (String.append out (join em1)) s1 stk1 H1 Hsym1 Hrest)
      as (r & em2 & stk2 & Hrun & Hret & Hcon & H2 & Hsym2 & Hlen2 & Hone2
          & Fd2 & Fc2 & P2 & C2); [lia | exact Hcl |].
    exists r, (em1 ++ em2), stk2. repeat split; try assumption.
    + cbn [forOf]. unfold bindP. rewrite Hstep. cbn [ret_val post console].
      rewrite Hrun. destruct r as [rv rp rc]. cbn in Hcon. subst rc. reflexivity.
    + rewrite Hret, join_app, append_assoc. reflexivity.
    + apply H2.
    + apply H2.
    + cbn [List.length]. lia.
    + apply Forall_app. split; assumption.
    + change (c :: rest) with ([c] ++ rest).
      rewrite !List.filter_app, Fd1, Fd2. reflexivity.
    + rewrite List.filter_app, Fc1, Fc2. reflexivity.
    + change (c :: rest) with ([c] ++ rest). rewrite !List.filter_app.
      rewrite <- app_assoc.
      etransitivity; [apply Permutation_app_head; exact P2|].
      rewrite !app_assoc. apply Permutation_app_tail. exact P1.
    + change (c :: rest) with ([c] ++ rest).
      rewrite List.filter_app, length_app, !countOpeners_app in *. lia.
Qed.

(** The scan of [cs], when a closing bracket gets stuck. *)
Lemma forOf_stuck cs : forall fuel out s stk,
  holds s stk -> symbols stk -> Forall oneChar cs ->
  List.length stk + List.length cs < fuel ->
  closable (countOpeners stk) cs = false ->
  forOf fuel cs out s = None.
Proof.
  induction cs as [|c rest IH]; intros fuel out s stk Hh Hsym Hone Hf Hcl;
    [discriminate|].
  cbn [closable] in Hcl. cbn [forOf]. unfold bindP.
  destruct (pendingAfter (countOpeners stk) c) as [d'|] eqn:Hp.
  - inversion Hone as [|? ? Hc Hrest]; subst. cbn [List.length] in Hf.
    destruct (step_ok fuel c out s stk d' Hh Hsym Hc) as
      (s1 & em1 & stk1 & -> & H1 & Hsym1 & Hd & Hlen1 & _); [lia | exact Hp |].
    cbn [ret_val post console]. rewrite <- Hd in Hcl.
    rewrite (IH fuel _ s1 stk1 H1 Hsym1 Hrest); [reflexivity | lia | exact Hcl].
  - rewrite (step_stuck fuel c out s stk Hh Hsym Hp). reflexivity.
Qed.

Lemma convert_ok (expression : string) fuel s :
  holds s [] ->
  closable 0 (chars expression) = true ->
  List.length (chars expression) < fuel ->
  exists r,
    convert fuel expression s = Some r /\
    console r = [] /\
    holds (post r) [] /\
    List.filter isOperand (chars (ret_val r))
      = List.filter isOperand (chars expression) /\
    List.filter isCloser (chars (ret_val r)) = [] /\
    Permutation (List.filter isOperator (chars (ret_val r)))
                (List.filter isOperator (chars expression)) /\
    countOpeners (chars (ret_val r))
      + List.length (List.filter isCloser (chars expression))
    = countOpeners (chars expression).
Proof.
  intros Hh Hcl Hf.
  destruct (forOf_ok (chars expression) fuel "" s [] Hh symbols_nil
              (chars_oneChar expression))
    as (r1 & em & stk1 & Hrun & Hret & Hcon & H1 & Hsym1 & Hlen1 & Hone1
        & Fd & Fc & P & C); [cbn; lia | exact Hcl |].
  destruct (whileNotEmpty_ok stk1 fuel (ret_val r1) (post r1) H1)
    as (s2 & Hrest & H2); [cbn in Hlen1; lia|].
  destruct (symbols_filters stk1 Hsym1) as [Sd Sc].
  pose proof (symbols_oneChar stk1 Hsym1) as Hone2.
  eexists. split.
  { unfold convert, bindP. rewrite Hrun, Hrest. reflexivity. }
  cbn [ret_val post console]. rewrite Hcon, Hret.
  cbn [String.append]. rewrite chars_append, !chars_join by assumption.
  rewrite !List.filter_app, Sd, Sc, Fd, Fc, !app_nil_r.
  cbn [List.filter app] in P. rewrite countOpeners_app.
  unfold countOpeners in C at 3. cbn [List.filter List.length] in C.
  repeat split; try assumption; try reflexivity; apply H2.
Qed.

Lemma convert_stuck (expression : string) fuel s :
  holds s [] ->
  closable 0 (chars expression) = false ->
  convert fuel expression s = None.
Proof.
  intros Hh Hcl.
  destruct (convert fuel expression s) as [r|] eqn:E; [|reflexivity].
  apply (convert_mono fuel (Nat.max fuel (S (List.length (chars expression)))))
    in E; [|lia].
  unfold convert, bindP in E.
  rewrite (forOf_stuck (chars expression) _ "" s [] Hh symbols_nil
             (chars_oneChar expression)) in E; [discriminate | cbn; lia | exact Hcl].
Qed.

(** [convert] returns exactly when every closing bracket of the
    expression finds an opening bracket pending (of whatever kind).
    Then any allowance of more iterations than the expression has
    characters is enough, nothing is written on the console and the
    stack is left empty; otherwise no allowance is enough. *)
Theorem convert_returns_iff_closable (expression : string) s :
  holds s [] ->
  (closable 0 (chars expression) = true ->
   forall fuel, List.length (chars expression) < fuel ->
     exists r, convert fuel expression s = Some r /\
               console r = [] /\ holds (post r) []) /\
  (closable 0 (chars expression) = false ->
   forall fuel, convert fuel expression s = None).
Proof.
  intros Hh. split.
  - intros Hcl fuel Hf.
    destruct (convert_ok expression fuel s Hh Hcl Hf) as (r & Hr & Hc & Hs & _).
    exists r. repeat split; assumption || apply Hs.
  - intros Hcl fuel. exact (convert_stuck expression fuel s Hh Hcl).
Qed.

(** The operands of the expression come out in the order they went
    in, and no closing bracket is ever written to the output. *)
Theorem convert_keeps_operand_order (expression : string) fuel s :
  holds s [] ->
  closable 0 (chars expression) = true ->
  List.length (chars expression) < fuel ->
  exists r, convert fuel expression s = Some r /\
            List.filter isOperand (chars (ret_val r))
              = List.filter isOperand (chars expression) /\
            List.filter isCloser (chars (ret_val r)) = [].
Proof.
  intros Hh Hcl Hf.
  destruct (convert_ok expression fuel s Hh Hcl Hf)
    as (r & Hr & _ & _ & Hd & Hc & _).
  exists r. repeat split; assumption.
Qed.

(** Every operator of the expression is written to the output once:
    the operators of the output are a rearrangement of the operators
    of the expression. *)
Theorem convert_keeps_operators (expression : string) fuel s :
  holds s [] ->
  closable 0 (chars expression) = true ->
  List.length (chars expression) < fuel ->
  exists r, convert fuel expression s = Some r /\
            Permutation (List.filter isOperator (chars (ret_val r)))
                        (List.filter isOperator (chars expression)).
Proof.
  intros Hh Hcl Hf.
  destruct (convert_ok expression fuel s Hh Hcl Hf)
    as (r & Hr & _ & _ & _ & _ & Hp & _).
  exists r. split; assumption.
Qed.

(** Each closing bracket removes one opening bracket and the opening
    brackets that are never closed are written to the output: the
    output has as many opening brackets as the expression has more
    opening than closing ones. *)
Theorem convert_emits_unclosed_openers (expression : string) fuel s :
  holds s [] ->
  closable 0 (chars expression) = true ->
  List.length (chars expression) < fuel ->
  exists r, convert fuel expression s = Some r /\
            countOpeners (chars (ret_val r))
            = countOpeners (chars expression)
              - List.length (List.filter isCloser (chars expression)).
Proof.
  intros Hh Hcl Hf.
  destruct (convert_ok expression fuel s Hh Hcl Hf)
    as (r & Hr & _ & _ & _ & _ & _ & Hc).
  exists r. split; [assumption | lia].
Qed.
End ConverterMore.

(** ** How the operations compose *)

Section Compositions.
Context {T : Type}.
Implicit Types (s : StackObj T) (stk hist : list T) (v w : T).

Lemma Repr_length s stk hist :
  Stack.Repr s stk hist -> length s = Z.of_nat (List.length stk).
Proof. intros (_ & Hl & _). exact Hl. Qed.

(** The history outlives a push: after pop, push, undo the popped
    value is back, on top of the value pushed in between. *)
Theorem undo_after_push_restores_on_top s stk hist v w :
  Stack.Repr s (v :: stk) hist ->
  (length s < MAX_SIZE)%Z ->
  let popped := Stack.pop s in
  let pushed := Stack.push w (post popped) in
  let undone := Stack.undo (post pushed) in
  ret_val undone = Some v /\
  Stack.Repr (post undone) (v :: w :: stk) hist /\
  console popped ++ console pushed ++ console undone = [].
Proof.
  intros HR Hlt popped pushed undone. subst popped pushed undone.
  pose proof (Repr_length _ _ _ HR) as L0. cbn [List.length] in L0.
  destruct (pop_ok _ _ _ _ HR) as (s1 & -> & HR1 & _). cbn [post console].
  pose proof (Repr_length _ _ _ HR1) as L1.
  destruct (push_ok _ _ _ w HR1) as (s2 & -> & HR2); [lia|]. cbn [post console].
  pose proof (Repr_length _ _ _ HR2) as L2. cbn [List.length] in L2.
  destruct (undo_ok _ _ _ _ HR2) as (s3 & -> & HR3); [lia|].
  repeat split; try reflexivity; apply HR3.
Qed.

(** [undo] followed by [pop] gives the restored value again and brings
    the elements and the history back to what they were. *)
Theorem undo_then_pop s stk hist v :
  Stack.Repr s stk (hist ++ [v]) ->
  (length s < MAX_SIZE)%Z ->
  let undone := Stack.undo s in
  let popped := Stack.pop (post undone) in
  ret_val undone = Some v /\
  ret_val popped = Some v /\
  Stack.Repr (post popped) stk (hist ++ [v]) /\
  console undone ++ console popped = [].
Proof.
  intros HR Hlt undone popped. subst undone popped.
  destruct (undo_ok _ _ _ _ HR Hlt) as (s1 & -> & HR1). cbn [post console ret_val].
  destruct (pop_ok _ _ _ _ HR1) as (s2 & -> & HR2 & _).
  repeat split; try reflexivity; apply HR2.
Qed.

(** The stacks of [BalancedStack.ts] and of the converter have no
    capacity: at any height a push stores the value and the pop that
    follows returns it, with nothing written on the console. *)
Theorem unbounded_push_pop_round_trip (u : StackObj T) stk v :
  holds u stk ->
  let pushed := BalancedStack.push v u in
  let popped := BalancedStack.pop (post pushed) in
  holds (post pushed) (v :: stk) /\
  ret_val popped = Some v /\
  holds (post popped) stk /\
  _poppedHistory (post popped) = _poppedHistory u ++ [Some v] /\
  console pushed ++ console popped = [].
Proof.
  intros Hh pushed popped. subst pushed popped.
  destruct (bpush_holds u stk v Hh) as [Hc H1].
  destruct (bpop_holds _ _ _ H1) as (Hr & Hc' & H2).
  rewrite Hc, Hc'. repeat split; try assumption; try apply H1; try apply H2.
  unfold BalancedStack.pop.
  destruct (Z.ltb_spec (topLevel (post (BalancedStack.push v u))) 0) as [Hneg|_].
  { destruct H1 as [Ht _]. cbn [List.length] in Ht. lia. }
  cbn [post _poppedHistory]. unfold JsArray.push. f_equal.
  rewrite (holds_top _ _ _ H1). reflexivity.
Qed.
End Compositions.

(** ** Instances of the properties above *)

Lemma peek_is_pop_without_change_witness :
  post (Stack.peek demoStack) = demoStack /\
  ret_val (Stack.peek demoStack) = Some 9%Z.
Proof.
  destruct (peek_is_pop_without_change demoStack _ _ Repr_demoStack)
    as (H1 & H2 & _).
  split; [exact H1 | exact H2].
Defined.

Lemma push_pop_round_trip_witness :
  ret_val (Stack.pop (post (Stack.push 5%Z Stack.new))) = Some 5%Z.
Proof.
  assert (HR : Stack.Repr (@Stack.new Z) [] []).
  { repeat split; try reflexivity; try (unfold MAX_SIZE; cbn; lia). }
  apply (push_pop_round_trip Stack.new [] [] 5%Z HR). vm_compute. reflexivity.
Defined.

Lemma undo_empty_history_witness :
  Stack.undo demoStack = Done None demoStack [].
Proof. exact (undo_empty_history demoStack _ Repr_demoStack). Defined.

Lemma stack_invariant_witness :
  JsArray.get
    (elements (Stack.performAll [Stack.Push 1%Z; Stack.Push 2%Z; Stack.Pop; Stack.Undo]
                                Stack.new)) 1
  <> None.
Proof.
  apply (stack_invariant [Stack.Push 1%Z; Stack.Push 2%Z; Stack.Pop; Stack.Undo]).
  vm_compute. split; [discriminate | reflexivity].
Defined.

Lemma pushes_saturate_witness :
  Stack.Repr (post (Stack.pushes [1; 2; 3; 4; 5; 6; 7; 8; 9; 10]%Z Stack.new))
             [9; 8; 7; 6; 5; 4; 3; 2; 1]%Z [] /\
  console (Stack.pushes [1; 2; 3; 4; 5; 6; 7; 8; 9; 10]%Z Stack.new)
  = ["stack overflow"].
Proof.
  assert (HR : Stack.Repr (@Stack.new Z) [] []).
  { repeat split; try reflexivity; try (unfold MAX_SIZE; cbn; lia). }
  exact (pushes_saturate [1; 2; 3; 4; 5; 6; 7; 8; 9; 10]%Z Stack.new [] [] HR).
Defined.

Lemma pops_saturate_witness :
  ret_val (Stack.pops 11 demoStack)
  = [Some 9; Some 8; Some 7; Some 6; Some 5; Some 4; Some 3; Some 2; Some 1;
     None; None]%Z /\
  console (Stack.pops 11 demoStack) = ["stack underflow"; "stack underflow"].
Proof.
  destruct (pops_saturate 11 demoStack _ _ Repr_demoStack) as (H1 & H2 & _).
  split; [exact H1 | exact H2].
Defined.

Lemma undo_after_push_restores_on_top_witness :
  ret_val (Stack.undo (post (Stack.push 7%Z (post (Stack.pop
             (post (Stack.pushes [1; 2]%Z Stack.new)))))))
  = Some 2%Z.
Proof.
  assert (HR : Stack.Repr (post (Stack.pushes [1; 2]%Z Stack.new)) [2; 1]%Z []).
  { repeat split; try reflexivity; try (unfold MAX_SIZE; cbn; lia). }
  apply (undo_after_push_restores_on_top _ _ _ 2%Z 7%Z HR). vm_compute. reflexivity.
Defined.

Lemma undo_then_pop_witness :
  ret_val (Stack.pop (post (Stack.undo (post (Stack.pop demoStack))))) = Some 9%Z.
Proof.
  assert (HR : Stack.Repr (post (Stack.pop demoStack))
                 [8; 7; 6; 5; 4; 3; 2; 1]%Z ([] ++ [9%Z])).
  { repeat split; try reflexivity; try (unfold MAX_SIZE; cbn; lia). }
  apply (undo_then_pop _ _ _ _ HR). vm_compute. reflexivity.
Defined.

Lemma unbounded_push_pop_round_trip_witness :
  ret_val (BalancedStack.pop (post (BalancedStack.push "(" BalancedStack.balancedStack)))
  = Some "(".
Proof.
  apply (unbounded_push_pop_round_trip BalancedStack.balancedStack [] "(").
  split; reflexivity.
Defined.

Lemma unbounded_undo_restores_witness :
  exists u',
    BalancedStack.undo
      (post (BalancedStack.pop (post (BalancedStack.push "(" BalancedStack.balancedStack))))
    = Done (Some "(") u' [] /\
    holds u' ["("].
Proof.
  destruct (unbounded_undo_restores
              (post (BalancedStack.pop
                 (post (BalancedStack.push "(" BalancedStack.balancedStack))))
              [] [] "(") as (u' & Hu & Hh & _).
  - split; reflexivity.
  - reflexivity.
  - exists u'. split; assumption.
Defined.

Lemma isBalanced_never_underflows_witness :
  console (BalancedStack.isBalanced ")]" BalancedStack.balancedStack) = [].
Proof.
  apply (isBalanced_never_underflows ")]" BalancedStack.balancedStack []).
  split; reflexivity.
Defined.

Lemma isBalanced_true_iff_nested_witness :
  ret_val (BalancedStack.isBalanced "a(b)" BalancedStack.balancedStack) = true
  <-> nested (chars "a(b)").
Proof.
  apply (isBalanced_true_iff_nested "a(b)" BalancedStack.balancedStack).
  split; reflexivity.
Defined.

Lemma convert_returns_iff_closable_witness :
  (exists r, InfixToPostfixStack.convert 6 "(A+B)" InfixToPostfixStack.infixToPostfix
             = Some r /\ console r = [] /\ holds (post r) []) /\
  InfixToPostfixStack.convert 6 "A)" InfixToPostfixStack.infixToPostfix = None.
Proof.
  assert (Hnew : holds InfixToPostfixStack.infixToPostfix []) by (split; reflexivity).
  split.
  - apply (proj1 (convert_returns_iff_closable "(A+B)" _ Hnew)).
    + reflexivity.
    + cbn. lia.
  - apply (proj2 (convert_returns_iff_closable "A)" _ Hnew)). reflexivity.
Defined.

Lemma convert_keeps_operand_order_witness :
  exists r, InfixToPostfixStack.convert 10 "A*(B+C)/D" InfixToPostfixStack.infixToPostfix
            = Some r /\
            List.filter isOperand (chars (ret_val r)) = ["A"; "B"; "C"; "D"] /\
            List.filter isCloser (chars (ret_val r)) = [].
Proof.
  apply (convert_keeps_operand_order "A*(B+C)/D" 10 InfixToPostfixStack.infixToPostfix).
  - split; reflexivity.
  - reflexivity.
  - cbn. lia.
Defined.

Lemma convert_keeps_operators_witness :
  exists r, InfixToPostfixStack.convert 10 "A*(B+C)/D" InfixToPostfixStack.infixToPostfix
            = Some r /\
            Permutation (List.filter InfixToPostfixStack.isOperator (chars (ret_val r)))
                        ["*"; "+"; "/"].
Proof.
  apply (convert_keeps_operators "A*(B+C)/D" 10 InfixToPostfixStack.infixToPostfix).
  - split; reflexivity.
  - reflexivity.
  - cbn. lia.
Defined.

Lemma convert_emits_unclosed_openers_witness :
  exists r, InfixToPostfixStack.convert 5 "(A+B" InfixToPostfixStack.infixToPostfix
            = Some r /\
            countOpeners (chars (ret_val r)) = 1.
Proof.
  apply (convert_emits_unclosed_openers "(A+B" 5 InfixToPostfixStack.infixToPostfix).
  - split; reflexivity.
  - reflexivity.
  - cbn. lia.
Defined.

(** ** The two algorithms together *)

Section Together.
Import InfixToPostfixStack.

Lemma classify_Other_inv c :
  classify c = Other -> isOpener c = false /\ isCloser c = false.
Proof.
  unfold classify, isOpener, isCloser.
  case_char c; cbn; try discriminate. intros _.
  repeat match goal with
         | H : c <> _ |- _ => apply String.eqb_neq in H; rewrite H; clear H
         end.
  split; reflexivity.
Qed.

Lemma openGlyph_facts k :
  isOpener (openGlyph k) = true.
Proof. destruct k; reflexivity. Qed.

Lemma closeGlyph_facts k :
  isOpener (closeGlyph k) = false /\ isCloser (closeGlyph k) = true.
Proof. destruct k; split; reflexivity. Qed.

(** A well-nested stretch closes what it opens. *)
Lemma nested_closable w :
  nested w ->
  (forall depth rest, closable depth (w ++ rest) = closable depth rest) /\
  countOpeners w = List.length (List.filter isCloser w).
Proof.
  induction 1 as [|c w Hc _ [IH IHc]|k w1 w2 _ [IH1 IHc1] _ [IH2 IHc2]].
  - split; reflexivity.
  - destruct (classify_Other_inv _ Hc) as [Ho Hcl]. split.
    + intros depth rest. cbn [app closable]. unfold pendingAfter.
      rewrite Ho, Hcl. apply IH.
    + unfold countOpeners in *. cbn [List.filter]. rewrite Ho, Hcl. exact IHc.
  - pose proof (openGlyph_facts k) as Ho.
    destruct (closeGlyph_facts k) as [Hco Hcc]. split.
    + intros depth rest. cbn [app closable]. unfold pendingAfter at 1.
      rewrite Ho, <- app_assoc, IH1. cbn [app closable]. unfold pendingAfter at 1.
      rewrite Hco, Hcc. apply IH2.
    + assert (Hoc : isCloser (openGlyph k) = false) by (destruct k; reflexivity).
      unfold countOpeners in *. cbn [List.filter]. rewrite Ho, Hoc.
      rewrite !List.filter_app. cbn [List.filter]. rewrite Hco, Hcc.
      cbn [List.length]. rewrite !length_app. cbn [List.length]. lia.
Qed.

(** An expression that [isBalanced] accepts is one that [convert]
    finishes on and returns without a single bracket, writing nothing
    on the console. *)
Theorem balanced_expression_converts (expression : string)
        (sb sc : StackObj string) fuel :
  holds sb [] -> holds sc [] ->
  ret_val (BalancedStack.isBalanced expression sb) = true ->
  List.length (chars expression) < fuel ->
  exists r, convert fuel expression sc = Some r /\
            console r = [] /\
            List.filter isOpener (chars (ret_val r)) = [] /\
            List.filter isCloser (chars (ret_val r)) = [].
Proof.
  intros Hb Hc Hbal Hf.
  rewrite (isBalanced_refines expression sb Hb) in Hbal.
  apply (balanced_closes _ []) in Hbal. cbn [closes] in Hbal.
  destruct (nested_closable _ Hbal) as [Hcl Hcount].
  specialize (Hcl 0 []). rewrite app_nil_r in Hcl. cbn [closable] in Hcl.
  destruct (convert_ok expression fuel sc Hc Hcl Hf)
    as (r & Hr & Hcon & _ & _ & Hnc & _ & Hopen).
  exists r. repeat split; try assumption.
  apply length_zero_iff_nil. unfold countOpeners in *. lia.
Qed.

(** [peek] and [isEmpty] of the unbounded classes: [isEmpty] tells
    whether a live element exists, [peek] returns the top without
    changing the object and reports an underflow on an empty stack. *)
Theorem unbounded_peek_isEmpty {T : Type} (u : StackObj T) (stk : list T) :
  holds u stk ->
  BalancedStack.isEmpty u
    = Done (match stk with [] => true | _ :: _ => false end) u [] /\
  BalancedStack.peek u
    = Done (head stk) u
           (match stk with [] => ["stack underflow"] | _ :: _ => [] end).
Proof.
  intros Hh. split; [exact (bisEmpty_holds u stk Hh)|].
  destruct stk as [|v stk].
  - exact (bpeek_empty u Hh).
  - exact (bpeek_holds u stk v Hh).
Qed.
End Together.

Lemma balanced_expression_converts_witness :
  exists r, InfixToPostfixStack.convert 12 "{A*[B+C]}"
              InfixToPostfixStack.infixToPostfix = Some r /\
            console r = [] /\
            List.filter isOpener (chars (ret_val r)) = [] /\
            List.filter isCloser (chars (ret_val r)) = [].
Proof.
  apply (balanced_expression_converts "{A*[B+C]}" BalancedStack.balancedStack
           InfixToPostfixStack.infixToPostfix 12).
  - split; reflexivity.
  - split; reflexivity.
  - reflexivity.
  - cbn. lia.
Defined.

Lemma unbounded_peek_isEmpty_witness :
  BalancedStack.peek (post (BalancedStack.push "[" BalancedStack.balancedStack))
  = Done (Some "[") (post (BalancedStack.push "[" BalancedStack.balancedStack)) [].
Proof.
  apply (unbounded_peek_isEmpty
           (post (BalancedStack.push "[" BalancedStack.balancedStack)) ["["]).
  split; reflexivity.
Defined.
